(** * Crawl statistics reporting, rate regulation and usage reports

    A shallow embedding of the worker-side statistics reporter
    ([image_get/worker/worker/stats_reporting.py]), of the usage report of
    [analytics/reporting.py], and of the crawl-rate regulator that the tests
    of [image_get/test/test_monitor.py] exercise.

    Conventions.
    - The key-value store is a record of finite maps, one per Redis value
      type.  Every command that reaches the store is also appended to a
      journal, so that "no write was issued" is a statement about the state.
    - A pipeline is the list of commands queued on it; [execute] applies
      them in order, as the MULTI/EXEC transaction of the client does.
    - Clock readings ([time.monotonic()]) are exact rationals; the rounding
      of floating-point subtraction is outside the model. *)

From Stdlib Require Import ZArith QArith Qround Qabs Lia Lqa.
From stdpp Require Import gmap strings list fin_maps pretty.

Local Open Scope string_scope.
Local Open Scope list_scope.
Local Open Scope stdpp_scope.
Local Open Scope Z_scope.

#[local] Set Warnings "-clear-no-such-hyp".

(** ** Python values that reach the reporter *)

(** The optional [code] argument of [record_error]: [None], an HTTP status
    such as [404], or an exception name such as ['UnidentifiedImageError']. *)
Inductive pyval :=
  | PyNone
  | PyInt (n : Z)
  | PyStr (s : string).

#[global] Instance pyval_eq_dec : EqDecision pyval.
Proof. solve_decision. Defined.

(** Truth value of [if code:]. *)
Definition truthy (v : pyval) : bool :=
  match v with
  | PyNone => false
  | PyInt n => negb (n =? 0)
  | PyStr s => negb (bool_decide (s = ""))
  end.

(** [code == other]; an integer never equals a string. *)
Definition py_eq (a b : pyval) : bool := bool_decide (a = b).

(** The text an f-string substitutes for [{v}]. *)
Definition py_str (v : pyval) : string :=
  match v with
  | PyNone => "None"
  | PyInt n => pretty n
  | PyStr s => s
  end.

(** The object returned by the domain extractor: [tld.domain], [tld.suffix]. *)
Record Tld := { domain : string; suffix : string }.

(** [f'{tld.domain}.{tld.suffix}'] *)
Definition domain_key (tld : Tld) : string := domain tld +:+ "." +:+ suffix tld.

(** ** The key-value store *)

Inductive bound :=
  | NegInf
  | Score (q : Q)
  | PosInf.

Inductive command :=
  | INCR (key : string)
  | SET (key : string) (value : Z)
  | ZADD (key : string) (score : Q) (member : Z)
  | ZREMRANGEBYSCORE (key : string) (lo hi : bound)
  | RPUSH (key : string) (value : string)
  | LTRIM (key : string) (start stop : Z)
  | SADD (key : string) (member : string).

(** A sorted set is kept as the list of its (score, member) entries. *)
Record store := {
  counters : gmap string Z;
  zsets : gmap string (list (Q * Z));
  lists : gmap string (list string);
  sets : gmap string (gset string);
  journal : list command
}.

Definition empty_store : store :=
  {| counters := ∅; zsets := ∅; lists := ∅; sets := ∅; journal := [] |}.

(** Readers; a missing key reads as zero, the empty set or the empty list. *)
Definition get (st : store) (key : string) : Z := default 0 (counters st !! key).
Definition zrange (st : store) (key : string) : list (Q * Z) := default [] (zsets st !! key).
Definition lrange (st : store) (key : string) : list string := default [] (lists st !! key).
Definition smembers (st : store) (key : string) : gset string := default ∅ (sets st !! key).

Definition bound_le_score (b : bound) (s : Q) : bool :=
  match b with
  | NegInf => true
  | Score q => Qle_bool q s
  | PosInf => false
  end.

Definition score_le_bound (s : Q) (b : bound) : bool :=
  match b with
  | NegInf => false
  | Score q => Qle_bool s q
  | PosInf => true
  end.

Definition in_score_range (lo hi : bound) (e : Q * Z) : bool :=
  bound_le_score lo e.1 && score_le_bound e.1 hi.

(** ZADD: a member is held once; adding it again replaces its score. *)
Definition zadd (score : Q) (member : Z) (zs : list (Q * Z)) : list (Q * Z) :=
  filter (λ e : Q * Z, e.2 ≠ member) zs ++ [(score, member)].

(** ZREMRANGEBYSCORE: drops the entries whose score lies in [lo, hi]. *)
Definition zremrangebyscore (lo hi : bound) (zs : list (Q * Z)) : list (Q * Z) :=
  filter (λ e : Q * Z, in_score_range lo hi e = false) zs.

(** LTRIM: keeps the elements from index [start] to index [stop], both
    inclusive; negative indices count from the end of the list. *)
Definition ltrim {A} (start stop : Z) (l : list A) : list A :=
  let len := Z.of_nat (length l) in
  let s := if start <? 0 then Z.max 0 (len + start) else start in
  let e := if stop <? 0 then len + stop else Z.min stop (len - 1) in
  if (e <? s) || (len <=? s) then []
  else take (Z.to_nat (e - s + 1)) (drop (Z.to_nat s) l).

Definition apply_command (c : command) (st : store) : store :=
  match c with
  | INCR key =>
      {| counters := <[key := get st key + 1]> (counters st);
         zsets := zsets st; lists := lists st; sets := sets st;
         journal := journal st ++ [c] |}
  | SET key value =>
      {| counters := <[key := value]> (counters st);
         zsets := zsets st; lists := lists st; sets := sets st;
         journal := journal st ++ [c] |}
  | ZADD key score member =>
      {| counters := counters st;
         zsets := <[key := zadd score member (zrange st key)]> (zsets st);
         lists := lists st; sets := sets st;
         journal := journal st ++ [c] |}
  | ZREMRANGEBYSCORE key lo hi =>
      {| counters := counters st;
         zsets := <[key := zremrangebyscore lo hi (zrange st key)]> (zsets st);
         lists := lists st; sets := sets st;
         journal := journal st ++ [c] |}
  | RPUSH key value =>
      {| counters := counters st; zsets := zsets st;
         lists := <[key := lrange st key ++ [value]]> (lists st);
         sets := sets st;
         journal := journal st ++ [c] |}
  | LTRIM key start stop =>
      {| counters := counters st; zsets := zsets st;
         lists := <[key := ltrim start stop (lrange st key)]> (lists st);
         sets := sets st;
         journal := journal st ++ [c] |}
  | SADD key member =>
      {| counters := counters st; zsets := zsets st; lists := lists st;
         sets := <[key := {[member]} ∪ smembers st key]> (sets st);
         journal := journal st ++ [c] |}
  end.

(** A pipeline holds the queued commands; [execute] commits them in order. *)
Definition pipeline := list command.

Definition execute (pipe : pipeline) (st : store) : store :=
  foldl (λ st c, apply_command c st) st pipe.

(** ** stats_reporting.py *)

Definition STATUS_60s : string := "status60s:".
Definition STATUS_1HR : string := "status1hr:".
Definition STATUS_12HR : string := "status12hr:".

Definition LAST_50_REQUESTS : string := "statuslast50req:".

Definition ONE_MINUTE : Z := 60.
Definition ONE_HOUR : Z := ONE_MINUTE * 60.
Definition TWELVE_HOURS : Z := ONE_HOUR * 12.

Definition WINDOW_PAIRS : list (string * Z) :=
  [ (STATUS_60s, ONE_MINUTE); (STATUS_1HR, ONE_HOUR); (STATUS_12HR, TWELVE_HOURS) ].

Definition ERROR_COUNT : string := "resize_errors".
Definition TLD_ERRORS : string := "resize_errors:".

Definition SUCCESS_COUNT : string := "num_resized".
Definition TLD_SUCCESS : string := "num_resized:".

Definition SUCCEEDED : Z := 1.
Definition FAILED : Z := 0.

Definition KNOWN_TLDS : string := "known_tlds".

(** [StatsManager]: the connection and the in-memory mirror of the
    domains seen so far. *)
Record StatsManager := {
  redis : store;
  known_tlds : gset string
}.

(** [StatsManager(redis)] *)
Definition new_StatsManager (r : store) : StatsManager :=
  {| redis := r; known_tlds := ∅ |}.

(** [_record_window_samples(pipe, domain, success)]; [now] is the reading of
    [time.monotonic()] taken on entry. *)
Definition _record_window_samples (now : Q) (pipe : pipeline)
    (domain : string) (success : Z) : pipeline :=
  foldl (λ pipe '(stat_key, interval),
           let key := stat_key +:+ domain in
           pipe ++ [ZADD key now success;
                    ZREMRANGEBYSCORE key NegInf (Score (now - inject_Z interval))])
        pipe WINDOW_PAIRS.

(** [_record_last_50_requests_sample(pipe, domain, status)] *)
Definition _record_last_50_requests_sample (pipe : pipeline)
    (domain : string) (status : pyval) : pipeline :=
  pipe ++ [RPUSH (LAST_50_REQUESTS +:+ domain) (py_str status);
           LTRIM (LAST_50_REQUESTS +:+ domain) (-50) (-1)].

(** The commands [record_error] queues before [pipe.execute()]. *)
Definition record_error_pipeline (now : Q) (tld : Tld) (code : pyval) : pipeline :=
  let domain := domain_key tld in
  let pipe := [INCR ERROR_COUNT] in
  let pipe := pipe ++ [INCR (TLD_ERRORS +:+ domain)] in
  let affect_rate_limiting := true in
  let '(pipe, affect_rate_limiting) :=
    if truthy code then
      (pipe ++ [INCR (TLD_ERRORS +:+ domain +:+ ":" +:+ py_str code)],
       if py_eq code (PyInt 404) || py_eq code (PyStr "UnidentifiedImageError")
       then false else affect_rate_limiting)
    else (pipe, affect_rate_limiting) in
  if affect_rate_limiting
  then _record_window_samples now pipe domain FAILED
  else pipe.

(** [record_error(self, tld, code=None)] *)
Definition record_error (now : Q) (tld : Tld) (code : pyval)
    (self : StatsManager) : StatsManager :=
  {| redis := execute (record_error_pipeline now tld code) (redis self);
     known_tlds := known_tlds self |}.

Definition record_success_pipeline (now : Q) (tld : Tld) : pipeline :=
  let domain := domain_key tld in
  let pipe := [INCR SUCCESS_COUNT] in
  let pipe := pipe ++ [INCR (TLD_SUCCESS +:+ domain)] in
  _record_window_samples now pipe domain SUCCEEDED.

(** [record_success(self, tld)] *)
Definition record_success (now : Q) (tld : Tld) (self : StatsManager) : StatsManager :=
  {| redis := execute (record_success_pipeline now tld) (redis self);
     known_tlds := known_tlds self |}.

(** [update_tlds(self, tld)] *)
Definition update_tlds (tld : string) (self : StatsManager) : StatsManager :=
  if decide (tld ∉ known_tlds self) then
    {| redis := apply_command (SADD KNOWN_TLDS tld) (redis self);
       known_tlds := {[tld]} ∪ known_tlds self |}
  else self.

(** The reporter calls a worker can make, and runs of them. *)
Inductive call :=
  | RecordSuccess (now : Q) (tld : Tld)
  | RecordError (now : Q) (tld : Tld) (code : pyval)
  | UpdateTlds (tld : string).

Definition perform (self : StatsManager) (c : call) : StatsManager :=
  match c with
  | RecordSuccess now tld => record_success now tld self
  | RecordError now tld code => record_error now tld code self
  | UpdateTlds tld => update_tlds tld self
  end.

Definition run (calls : list call) (self : StatsManager) : StatsManager :=
  foldl perform self calls.

Definition example_com : Tld := {| domain := "example"; suffix := "com" |}.

(** ** analytics/reporting.py *)

Module Reporting.

(** The event kinds that [generate_usage_report] filters on. *)
Inductive DetailPageEvents :=
  | ATTRIBUTION_CLICKED
  | REUSE_SURVEY
  | SOURCE_CLICKED
  | CREATOR_CLICKED
  | SHARED_SOCIAL.

#[global] Instance DetailPageEvents_eq_dec : EqDecision DetailPageEvents.
Proof. solve_decision. Defined.

(** Rows of the event tables, with the columns the report reads. *)
Record ResultClickedEvent := { rc_timestamp : Z }.
Record DetailPageEvent := { dp_timestamp : Z; event_type : DetailPageEvents }.
Record SearchEvent := { se_timestamp : Z; session_uuid : option string }.
Record AttributionReferrerEvent := { ar_timestamp : Z }.
Record SearchRatingEvent := { sr_timestamp : Z; relevant : bool }.

(** The database behind the SQLAlchemy session. *)
Record Session := {
  result_clicked_events : list ResultClickedEvent;
  detail_page_events : list DetailPageEvent;
  search_events : list SearchEvent;
  attribution_referrer_events : list AttributionReferrerEvent;
  search_rating_events : list SearchRatingEvent
}.

(** [start_time < timestamp, timestamp < end_time] *)
Definition between (start_time end_time timestamp : Z) : Prop :=
  start_time < timestamp ∧ timestamp < end_time.

(** [query(...).filter(...).count()] *)
Definition count {A} (P : A → Prop) `{!∀ x, Decision (P x)} (rows : list A) : Z :=
  Z.of_nat (length (filter P rows)).

(** [func.count(distinct(column)).filter(...)]: the number of different
    non-NULL values of the column among the rows that pass the filter. *)
Definition count_distinct {A B} `{!EqDecision B} (column : A → option B)
    (P : A → Prop) `{!∀ x, Decision (P x)} (rows : list A) : Z :=
  Z.of_nat (length (remove_dups (omap column (filter P rows)))).

Definition detail_page_count (session : Session) (start_time end_time : Z)
    (kind : DetailPageEvents) : Z :=
  count (λ e, between start_time end_time (dp_timestamp e) ∧ event_type e = kind)
    (detail_page_events session).

Inductive exn := ZeroDivisionError.

(** [a / b] on two integers: the quotient, or [ZeroDivisionError]. *)
Definition truediv (a b : Z) : exn + Q :=
  if decide (b = 0) then inl ZeroDivisionError
  else inr (inject_Z a / inject_Z b)%Q.

(** The query for the average rating is built and never run: the report
    carries the query itself, here the interval it selects. *)
Record RatingQuery := { rating_from : Z; rating_until : Z }.

Record UsageReport := {
  results_clicked : Z;
  attribution_buttonclicks : Z;
  survey_responses : Z;
  source_clicked : Z;
  creator_clicked : Z;
  shared_social : Z;
  sessions : Z;
  searches : Z;
  attribution_referer_hits : Z;
  avg_rating : RatingQuery;
  avg_searches_per_session : Q;
  timestamp : Z
}.

(** [generate_usage_report(session, start_time, end_time)]; [inl] is an
    exception that leaves the function. *)
Definition generate_usage_report (session : Session) (start_time end_time : Z)
    : exn + UsageReport :=
  let results_clicked :=
    count (λ e, between start_time end_time (rc_timestamp e))
      (result_clicked_events session) in
  let attribution_buttonclicks :=
    detail_page_count session start_time end_time ATTRIBUTION_CLICKED in
  let survey_responses :=
    detail_page_count session start_time end_time REUSE_SURVEY in
  let source_clicked :=
    detail_page_count session start_time end_time SOURCE_CLICKED in
  let creator_clicked :=
    detail_page_count session start_time end_time CREATOR_CLICKED in
  let shared_social :=
    detail_page_count session start_time end_time SHARED_SOCIAL in
  let sessions :=
    count_distinct session_uuid
      (λ e, between start_time end_time (se_timestamp e)) (search_events session) in
  let searches :=
    count (λ e, between start_time end_time (se_timestamp e))
      (search_events session) in
  let attribution_referer_hits :=
    count (λ e, between start_time end_time (ar_timestamp e))
      (attribution_referrer_events session) in
  let avg_rating := {| rating_from := start_time; rating_until := end_time |} in
  let avg_searches_per_session :=
    match truediv searches sessions with
    | inr quotient => quotient
    | inl ZeroDivisionError => 0%Q
    end in
  inr {| results_clicked := results_clicked;
         attribution_buttonclicks := attribution_buttonclicks;
         survey_responses := survey_responses;
         source_clicked := source_clicked;
         creator_clicked := creator_clicked;
         shared_social := shared_social;
         sessions := sessions;
         searches := searches;
         attribution_referer_hits := attribution_referer_hits;
         avg_rating := avg_rating;
         avg_searches_per_session := avg_searches_per_session;
         timestamp := end_time |}.

End Reporting.

(** ** crawl_monitor/rate_limit.py

    [test_monitor.py] imports the regulator from this module.  What follows
    is the regulator as the specification describes it, over the store
    defined above. *)

Module RateLimit.

(** Modelled from the spec: the configuration of the regulator, whose
    module-level constants are missing: the bounds of the rate, the image
    count from which the maximum rate applies, and the parameters of the
    temporary breaker. *)
Record Config := {
  MIN_CRAWL_RPS : Z;
  MAX_CRAWL_RPS : Z;
  MAX_CRAWL_SIZE : Z;
  TEMP_HALT_MIN_SAMPLES : Z;
  TEMP_HALT_THRESHOLD_RATIO : Q
}.

(** Modelled from the spec: [compute_crawl_rate], which is missing.  From
    [MAX_CRAWL_SIZE] images on the rate is [MAX_CRAWL_RPS].  Below, the rate
    is proportional to the image count, so that half of [MAX_CRAWL_SIZE]
    gives half of [MAX_CRAWL_RPS]; it is rounded down, because a token
    bucket holds an integer count, and kept between the floor
    [MIN_CRAWL_RPS] and the ceiling [MAX_CRAWL_RPS].  The threshold for the
    minimum is thereby the count at which the proportional rate meets the
    floor. *)
Definition compute_crawl_rate (cfg : Config) (image_count : Q) : Z :=
  if Qle_bool (inject_Z (MAX_CRAWL_SIZE cfg)) image_count then MAX_CRAWL_RPS cfg
  else
    Z.max (MIN_CRAWL_RPS cfg)
      (Z.min (MAX_CRAWL_RPS cfg)
         (Qfloor (inject_Z (MAX_CRAWL_RPS cfg) * image_count
                  / inject_Z (MAX_CRAWL_SIZE cfg)))).

(** Modelled from the spec: an entry of the catalog's source list. *)
Record Source := {
  source_name : string;
  image_count : Z;
  display_name : string;
  source_url : string
}.

(** Modelled from the spec: the prefix of the token bucket keys
    [currtokens:{domain}]. *)
Definition CURRTOKENS : string := "currtokens:".

(** Modelled from the spec: the set of the domains halted until an operator
    removes them. *)
Definition HALTED : string := "halted".

(** Modelled from the spec: the set of the domains halted for a while. *)
Definition TEMP_HALTED : string := "temp_halted".

(** Modelled from the spec: entries of RecentRequests are stringified
    status codes; this reads one decimal digit. *)
Definition digit_of (c : Ascii.ascii) : option Z :=
  let n := Z.of_nat (Ascii.nat_of_ascii c) in
  if (48 <=? n) && (n <=? 57) then Some (n - 48) else None.

(** Modelled from the spec: the number written by a string of decimal
    digits, continuing from [acc]. *)
Fixpoint parse_digits (acc : Z) (s : string) : option Z :=
  match s with
  | EmptyString => Some acc
  | String c s' =>
      match digit_of c with
      | Some d => parse_digits (10 * acc + d) s'
      | None => None
      end
  end.

(** Modelled from the spec: the status code that an entry of
    RecentRequests encodes, if it is a number. *)
Definition status_code (entry : string) : option Z :=
  match entry with
  | EmptyString => None
  | _ => parse_digits 0 entry
  end.

(** Modelled from the spec: an entry encodes a server error when its
    status code is at least 500. *)
Definition server_error (entry : string) : Prop :=
  match status_code entry with
  | Some code => 500 ≤ code
  | None => False
  end.

#[global] Instance server_error_dec entry : Decision (server_error entry).
Proof. unfold server_error. destruct (status_code entry); apply _. Defined.

(** Modelled from the spec: the hard breaker trips when RecentRequests has
    at least 50 entries and at least 50 of them encode a server error. *)
Definition hard_halt_tripped (st : store) (d : string) : bool :=
  let recent := lrange st (LAST_50_REQUESTS +:+ d) in
  bool_decide (50 ≤ length recent)%nat
  && bool_decide (50 ≤ length (filter server_error recent))%nat.

(** Modelled from the spec: the temporary breaker counts the failures and
    the successes of the 60-second window and trips when the failures
    reach the configured share of at least the configured number of
    samples. *)
Definition temp_halt_tripped (cfg : Config) (now : Q) (st : store) (d : string) : bool :=
  let window :=
    filter (λ e : Q * Z, Qle_bool (now - inject_Z ONE_MINUTE) e.1 = true)
      (zrange st (STATUS_60s +:+ d)) in
  let failures := Z.of_nat (length (filter (λ e : Q * Z, e.2 = FAILED) window)) in
  let successes := Z.of_nat (length (filter (λ e : Q * Z, e.2 = SUCCEEDED) window)) in
  let total := failures + successes in
  Qle_bool (TEMP_HALT_THRESHOLD_RATIO cfg * inject_Z total) (inject_Z failures)
  && (TEMP_HALT_MIN_SAMPLES cfg <=? total).

(** Modelled from the spec: one source of one tick.  A source whose domain
    is not in [known_tlds] is skipped; otherwise the breakers are
    evaluated, the target rate of a halted domain is overridden to zero,
    and the token bucket is overwritten.  [canonicalise] is the domain
    canonicaliser, which needs a public-suffix list and is taken as given. *)
Definition regulate (cfg : Config) (canonicalise : string → Tld) (now : Q)
    (st : store) (source : Source) : store :=
  let d := domain_key (canonicalise (source_url source)) in
  if decide (d ∈ smembers st KNOWN_TLDS) then
    let target_rps := compute_crawl_rate cfg (inject_Z (image_count source)) in
    let st := if hard_halt_tripped st d
              then apply_command (SADD HALTED d) st else st in
    let st := if temp_halt_tripped cfg now st d
              then apply_command (SADD TEMP_HALTED d) st else st in
    let target_rps :=
      if decide (d ∈ smembers st HALTED ∪ smembers st TEMP_HALTED)
      then 0 else target_rps in
    apply_command (SET (CURRTOKENS +:+ d) target_rps) st
  else st.

(** Modelled from the spec: one tick of [rate_limit_regulator].  [None] is
    a failed fetch of the source list, which skips the tick. *)
Definition tick (cfg : Config) (canonicalise : string → Tld) (now : Q)
    (response : option (list Source)) (st : store) : store :=
  match response with
  | Some sources => foldl (regulate cfg canonicalise now) st sources
  | None => st
  end.

(** The source that the fixture of [test_monitor.py] lists. *)
Definition example_source : Source :=
  {| source_name := "example"; image_count := 5000000;
     display_name := "Example"; source_url := "example.com" |}.

(** [source_fixture()] of [test_monitor.py]. *)
Definition source_fixture : list Source := [example_source].

End RateLimit.

(** ** Concrete inputs for the scenarios *)

Definition example_config : RateLimit.Config :=
  {| RateLimit.MIN_CRAWL_RPS := 5;
     RateLimit.MAX_CRAWL_RPS := 200;
     RateLimit.MAX_CRAWL_SIZE := 500000000;
     RateLimit.TEMP_HALT_MIN_SAMPLES := 10;
     RateLimit.TEMP_HALT_THRESHOLD_RATIO := 1 # 4 |}.

(** A canonicaliser that knows the one URL of the tests. *)
Definition example_canonicalise (url : string) : Tld :=
  if decide (url = "example.com") then example_com
  else {| domain := url; suffix := "" |}.

(** A store in which a worker has announced [example.com]. *)
Definition known_store : store :=
  apply_command (SADD KNOWN_TLDS "example.com") empty_store.

(** The same store after 51 requests recorded with status 500. *)
Definition failing_store : store :=
  execute (replicate 51 (RPUSH "statuslast50req:example.com" "500")) known_store.

(** ** Predicates used in the statements *)

(** The codes that [record_error] keeps away from rate limiting. *)
Definition benign (code : pyval) : Prop :=
  code = PyInt 404 ∨ code = PyStr "UnidentifiedImageError".

#[global] Instance benign_dec code : Decision (benign code).
Proof. unfold benign. apply _. Defined.

(** Every entry of the sorted set at [key] is scored above [b]. *)
Definition all_above (b : Q) (st : store) (key : string) : Prop :=
  ∀ e, e ∈ zrange st key → (b < e.1)%Q.

(** What the specification asks of a window: nothing older than the
    interval. *)
Definition windows_fresh (now : Q) (st : store) (d : string) : Prop :=
  ∀ stat_key interval, (stat_key, interval) ∈ WINDOW_PAIRS →
    ∀ e, e ∈ zrange st (stat_key +:+ d) → (now - inject_Z interval <= e.1)%Q.

Definition touches_lists (c : command) : bool :=
  match c with
  | RPUSH _ _ | LTRIM _ _ _ => true
  | _ => false
  end.

(** A window built by the reporter: no member twice, and only the two
    outcome values. *)
Definition window_ok (zs : list (Q * Z)) : Prop :=
  NoDup zs.*2 ∧ ∀ m, m ∈ zs.*2 → m = FAILED ∨ m = SUCCEEDED.

Definition windows_ok (st : store) : Prop :=
  ∀ key zs, zsets st !! key = Some zs → window_ok zs.

Definition outcome_command (c : command) : Prop :=
  match c with
  | ZADD _ _ member => member = FAILED ∨ member = SUCCEEDED
  | _ => True
  end.

(** ** Bookkeeping on pipelines *)

(** The commands that the two recording calls queue. *)
Definition sampling_command (c : command) : Prop :=
  match c with
  | INCR _ | ZADD _ _ _ | ZREMRANGEBYSCORE _ _ _ => True
  | _ => False
  end.

(** The counter that a command increments, if any. *)
Definition incr_key (c : command) : option string :=
  match c with
  | INCR key => Some key
  | _ => None
  end.

(** How often a pipeline increments the counter at [key]. *)
Definition incr_count (key : string) (pipe : list command) : Z :=
  Z.of_nat (length (filter (λ c, incr_key c = Some key) pipe)).

(** The sorted set that a command writes, if any. *)
Definition zset_key (c : command) : option string :=
  match c with
  | ZADD key _ _ | ZREMRANGEBYSCORE key _ _ => Some key
  | _ => None
  end.

(** The numbers of recording calls in a run. *)
Definition is_success (c : call) : bool :=
  match c with RecordSuccess _ _ => true | _ => false end.

Definition is_error (c : call) : bool :=
  match c with RecordError _ _ _ => true | _ => false end.

Definition successes (calls : list call) : Z :=
  Z.of_nat (length (filter (λ c, is_success c = true) calls)).

Definition errors (calls : list call) : Z :=
  Z.of_nat (length (filter (λ c, is_error c = true) calls)).

(** The counts that a usage report carries, in the order of its fields. *)
Definition usage_counts (report : Reporting.UsageReport) : list Z :=
  [ Reporting.results_clicked report;
    Reporting.attribution_buttonclicks report;
    Reporting.survey_responses report;
    Reporting.source_clicked report;
    Reporting.creator_clicked report;
    Reporting.shared_social report;
    Reporting.sessions report;
    Reporting.searches report;
    Reporting.attribution_referer_hits report ].

(** A small database for the usage report. *)
Definition example_session : Reporting.Session :=
  {| Reporting.result_clicked_events := [ {| Reporting.rc_timestamp := 5 |} ];
     Reporting.detail_page_events := [];
     Reporting.search_events :=
       [ {| Reporting.se_timestamp := 4; Reporting.session_uuid := Some "s1" |};
         {| Reporting.se_timestamp := 6; Reporting.session_uuid := Some "s1" |} ];
     Reporting.attribution_referrer_events := [];
     Reporting.search_rating_events := [] |}.

(** ** analytics/reporting.py: the reports by source and by referrer *)

Module UsageBreakdown.

(** Rows of the tables, with the columns the two reports read. *)
Record Image := { identifier : string; source : option string }.
Record ResultClickedEvent := { result_uuid : string; rc_timestamp : Z }.
Record AttributionReferrerEvent := {
  referer_domain : option string;
  ar_timestamp : Z
}.

Record Session := {
  images : list Image;
  result_clicked_events : list ResultClickedEvent;
  attribution_referrer_events : list AttributionReferrerEvent
}.

(** [select_from(Image).join(ResultClickedEvent, result_uuid == identifier)
    .filter(timestamp > start_time, timestamp < end_time)]: the sources of
    the joined rows, one per pair of an image and a click on it. *)
Definition clicked_sources (session : Session) (start_time end_time : Z)
    : list (option string) :=
  img ← images session;
  ev ← result_clicked_events session;
  if decide (result_uuid ev = identifier img
             ∧ start_time < rc_timestamp ev ∧ rc_timestamp ev < end_time)
  then [source img] else [].

(** [group_by(column)] with a count per group: one row for each value of
    the column, with [size] of that value. *)
Definition group_rows {K} `{!EqDecision K} (size : K → Z) (column : list K)
    : list (K * Z) :=
  (λ k, (k, size k)) <$> remove_dups column.

(** The number of rows of the column that hold [k]. *)
Definition occurrences {K} `{!EqDecision K} (column : list K) (k : K) : Z :=
  Z.of_nat (length (filter (λ k', k' = k) column)).

(** [for res in rows: key, count = res; res_dict[key] = count] *)
Definition to_dict {K} `{Countable K} (rows : list (K * Z)) : gmap K Z :=
  foldl (λ res_dict res, <[res.1 := res.2]> res_dict) ∅ rows.

(** [generate_source_usage_report(session, start_time, end_time)] *)
Definition generate_source_usage_report (session : Session)
    (start_time end_time : Z) : gmap (option string) Z :=
  let joined := clicked_sources session start_time end_time in
  let source_usage := group_rows (occurrences joined) joined in
  to_dict source_usage.

(** The referrer domains of the events in the interval. *)
Definition referrers (session : Session) (start_time end_time : Z)
    : list (option string) :=
  referer_domain <$>
    filter (λ ev, start_time < ar_timestamp ev ∧ ar_timestamp ev < end_time)
      (attribution_referrer_events session).

(** [func.count(referer_domain)] on the group of [k]: NULL values are not
    counted. *)
Definition counted_referrers (column : list (option string))
    (k : option string) : Z :=
  match k with
  | Some _ => occurrences column k
  | None => 0
  end.

(** [generate_referrer_usage_report(session, start_time, end_time)] *)
Definition generate_referrer_usage_report (session : Session)
    (start_time end_time : Z) : gmap (option string) Z :=
  let column := referrers session start_time end_time in
  let attribution_embeddings := group_rows (counted_referrers column) column in
  to_dict attribution_embeddings.

End UsageBreakdown.

(** ** catalog/api/views/media_views.py *)

Module MediaViews.

(** [sep.join(parts)] *)
Fixpoint join (sep : string) (parts : list string) : string :=
  match parts with
  | [] => ""
  | [part] => part
  | part :: rest => part +:+ sep +:+ join sep rest
  end.

(** [*all_but_last, last = field_names]; [None] is the [ValueError] of
    unpacking an empty list. *)
Fixpoint unpack_last {A} (l : list A) : option (list A * A) :=
  match l with
  | [] => None
  | x :: l' =>
      match unpack_last l' with
      | None => Some ([], x)
      | Some (all_but_last, last) => Some (x :: all_but_last, last)
      end
  end.

Inductive exn := ValueError.

(** [fields_to_md(field_names)] *)
Definition fields_to_md (field_names : list string) : exn + string :=
  match unpack_last field_names with
  | None => inl ValueError
  | Some (all_but_last, last) =>
      let all_but_last := join ", " ((λ name, "`" +:+ name +:+ "`") <$> all_but_last) in
      inr (all_but_last +:+ " and `" +:+ last +:+ "`")
  end.

(** [s.split(sep)] for a separator of one character: the first field and
    the fields after it.  The result of [split] is never empty. *)
Fixpoint split (sep : Ascii.ascii) (s : string) : string * list string :=
  match s with
  | EmptyString => (EmptyString, [])
  | String c s' =>
      let '(first, rest) := split sep s' in
      if decide (c = sep) then (EmptyString, first :: rest)
      else (String c first, rest)
  end.

Definition comma : Ascii.ascii := Ascii.Ascii false false true true false true false false.

(** [_get_user_ip(request)], on the [META] dictionary of the request; the
    result is [None] when [REMOTE_ADDR] is missing too. *)
Definition _get_user_ip (META : gmap string string) : option string :=
  let x_forwarded_for := META !! "HTTP_X_FORWARDED_FOR" in
  match x_forwarded_for with
  | Some header =>
      if decide (header ≠ "") then Some (split comma header).1
      else META !! "REMOTE_ADDR"
  | None => META !! "REMOTE_ADDR"
  end.

(** A row of [ContentProvider], with the columns that [MediaStats] reads. *)
Record ContentProvider := {
  id : Z;
  provider_identifier : string;
  provider_name : string;
  filter_content : bool;
  domain_name : string;
  media_type : string
}.

(** An element of the response of [MediaStats]; [count_key] is the key
    [f'{index_name}_count'] under which the count is stored. *)
Record SourceStats := {
  source_name : string;
  count_key : string;
  count : option Z;
  display_name : string;
  source_url : string;
  logo_url : option string
}.

(** The body of the loop of [MediaStats._get] for one provider.  [logos]
    maps the id of a provider to the path of its logo, and a missing entry
    is the [SourceLogo.DoesNotExist] of the lookup. *)
Definition source_stats (build_absolute_uri : string → string)
    (logos : gmap Z string) (source_counts : gmap string Z) (index_name : string)
    (response : list SourceStats) (source : ContentProvider) : list SourceStats :=
  let source_codename := provider_identifier source in
  let _id := id source in
  let display_name := provider_name source in
  let filtered := filter_content source in
  let source_url := domain_name source in
  let count := source_counts !! source_codename in
  let full_logo_url :=
    match logos !! _id with
    | Some logo_path => Some (build_absolute_uri logo_path)
    | None => None
    end in
  if negb filtered && bool_decide (is_Some (source_counts !! source_codename))
  then response ++
       [ {| source_name := source_codename;
            count_key := index_name +:+ "_count";
            count := count;
            display_name := display_name;
            source_url := source_url;
            logo_url := full_logo_url |} ]
  else response.

(** [MediaStats._get(request, index_name)]: the data of the response.
    [source_counts] is the result of [get_sources(index_name)]. *)
Definition MediaStats_get (build_absolute_uri : string → string)
    (providers : list ContentProvider) (logos : gmap Z string)
    (source_counts : gmap string Z) (index_name : string) : list SourceStats :=
  let source_data := filter (λ p, media_type p = index_name) providers in
  foldl (source_stats build_absolute_uri logos source_counts index_name) [] source_data.

End MediaViews.

(** ** catalog/api/serializers/provider_serializers.py *)

Module ProviderSerializers.

(** [self.context]: the request, through its [build_absolute_uri], and the
    counts per source; either may be missing. *)
Record Context := {
  request : option (string → string);
  source_counts : option (gmap string Z)
}.

(** [get_logo_url(self, obj)]; [logos] maps the id of a provider to the
    path of its logo. *)
Definition get_logo_url (context : Context) (logos : gmap Z string)
    (obj : MediaViews.ContentProvider) : option string :=
  match logos !! MediaViews.id obj with
  | None => None
  | Some logo_path =>
      match request context with
      | Some build_absolute_uri => Some (build_absolute_uri logo_path)
      | None => None
      end
  end.

Inductive exn := AttributeError.

(** [get_media_count(self, obj)]; without [source_counts] in the context
    the call [None.get(...)] raises. *)
Definition get_media_count (context : Context)
    (obj : MediaViews.ContentProvider) : exn + option Z :=
  match source_counts context with
  | None => inl AttributeError
  | Some source_counts => inr (source_counts !! MediaViews.provider_identifier obj)
  end.

End ProviderSerializers.

(** ** Readings of the views *)

(** The providers that [MediaStats] reports for an index: of that media
    type, not filtered, and with a count. *)
Definition reported (source_counts : gmap string Z) (index_name : string)
    (p : MediaViews.ContentProvider) : Prop :=
  MediaViews.media_type p = index_name ∧
  MediaViews.filter_content p = false ∧
  is_Some (source_counts !! MediaViews.provider_identifier p).

#[global] Instance reported_dec source_counts index_name p :
  Decision (reported source_counts index_name p).
Proof. unfold reported. apply _. Defined.

(** The context that a view passes to [ProviderSerializer]. *)
Definition full_context (build_absolute_uri : string → string)
    (source_counts : gmap string Z) : ProviderSerializers.Context :=
  {| ProviderSerializers.request := Some build_absolute_uri;
     ProviderSerializers.source_counts := Some source_counts |}.

(** The headers of a request that came through one proxy. *)
Definition example_META : gmap string string :=
  {[ "HTTP_X_FORWARDED_FOR" := "203.0.113.7, 10.0.0.2";
     "REMOTE_ADDR" := "10.0.0.1" ]}.

(** ** Basic facts about the store *)

Lemma execute_app (p q : pipeline) (st : store) :
  execute (p ++ q) st = execute q (execute p st).
Proof. apply foldl_app. Qed.

Lemma string_app_length (a b : string) :
  String.length (a +:+ b) = (String.length a + String.length b)%nat.
Proof.
  induction a as [|c a IH]; [done|].
  change (String c a +:+ b) with (String c (a +:+ b)). cbn. by rewrite IH.
Qed.

Lemma string_app_longer (a b : string) :
  b ≠ "" → a +:+ b ≠ a.
Proof.
  intros Hb Heq. apply (f_equal String.length) in Heq.
  rewrite string_app_length in Heq. destruct b; [done|]. cbn in Heq. lia.
Qed.

Lemma get_incr_eq (st : store) (key : string) :
  get (apply_command (INCR key) st) key = get st key + 1.
Proof. unfold get at 1. cbn. by rewrite lookup_insert_eq. Qed.

Lemma get_incr_ne (st : store) (key key' : string) :
  key ≠ key' → get (apply_command (INCR key) st) key' = get st key'.
Proof. intros Hne. unfold get at 1. cbn. by rewrite lookup_insert_ne. Qed.

(** The three error counters are three different keys. *)
Lemma error_keys_distinct (d c : string) :
  ERROR_COUNT ≠ TLD_ERRORS +:+ d ∧
  ERROR_COUNT ≠ TLD_ERRORS +:+ d +:+ ":" +:+ c ∧
  TLD_ERRORS +:+ d ≠ TLD_ERRORS +:+ d +:+ ":" +:+ c.
Proof.
  split_and!.
  - intros H. apply (f_equal String.length) in H.
    rewrite string_app_length in H. cbn in H. lia.
  - intros H. apply (f_equal String.length) in H.
    rewrite string_app_length in H. cbn in H. lia.
  - intros H. symmetry in H. apply (inj (String.app TLD_ERRORS)) in H.
    by apply string_app_longer in H.
Qed.

(** Entries of a window after the sampling commands. *)
Lemma zrange_zadd_eq (st : store) (key : string) (score : Q) (member : Z) :
  (score, member) ∈ zrange (apply_command (ZADD key score member) st) key.
Proof.
  unfold zrange at 1. cbn. rewrite lookup_insert_eq. cbn.
  unfold zadd. set_solver.
Qed.

Lemma zrange_zadd_keeps (st : store) (key key' : string) (score : Q) (member : Z) :
  (score, member) ∈ zrange st key →
  (score, member) ∈ zrange (apply_command (ZADD key' score member) st) key.
Proof.
  intros Hin. destruct (decide (key' = key)) as [->|Hne].
  - apply zrange_zadd_eq.
  - unfold zrange at 1. cbn. by rewrite lookup_insert_ne.
Qed.

Lemma zrange_trim_keeps (st : store) (key key' : string) (now : Q)
    (interval member : Z) :
  0 < interval →
  (now, member) ∈ zrange st key →
  (now, member) ∈
    zrange (apply_command
              (ZREMRANGEBYSCORE key' NegInf (Score (now - inject_Z interval))) st) key.
Proof.
  intros Hpos Hin. destruct (decide (key' = key)) as [->|Hne].
  - unfold zrange at 1. cbn. rewrite lookup_insert_eq. cbn.
    unfold zremrangebyscore. apply list_elem_of_filter. split; [|done].
    unfold in_score_range. cbn.
    destruct (Qle_bool now (now - inject_Z interval)) eqn:Hle; [|done].
    apply Qle_bool_iff in Hle.
    assert (0 < inject_Z interval)%Q by (by apply (Qlt_alt 0), Z.compare_lt_iff; cbn; lia).
    lra.
  - unfold zrange at 1. cbn. by rewrite lookup_insert_ne.
Qed.

(** ** The shape of the queued pipelines *)

Lemma _record_window_samples_unfold (now : Q) (pipe : pipeline) (d : string) (success : Z) :
  _record_window_samples now pipe d success =
  pipe ++
  [ ZADD (STATUS_60s +:+ d) now success;
    ZREMRANGEBYSCORE (STATUS_60s +:+ d) NegInf (Score (now - inject_Z ONE_MINUTE));
    ZADD (STATUS_1HR +:+ d) now success;
    ZREMRANGEBYSCORE (STATUS_1HR +:+ d) NegInf (Score (now - inject_Z ONE_HOUR));
    ZADD (STATUS_12HR +:+ d) now success;
    ZREMRANGEBYSCORE (STATUS_12HR +:+ d) NegInf (Score (now - inject_Z TWELVE_HOURS)) ].
Proof.
  unfold _record_window_samples, WINDOW_PAIRS. cbn [foldl].
  by rewrite <- !(assoc_L (++)).
Qed.

Lemma record_error_pipeline_benign (now : Q) (tld : Tld) (code : pyval) :
  benign code →
  record_error_pipeline now tld code =
  [ INCR ERROR_COUNT;
    INCR (TLD_ERRORS +:+ domain_key tld);
    INCR (TLD_ERRORS +:+ domain_key tld +:+ ":" +:+ py_str code) ].
Proof. by intros [-> | ->]. Qed.

Lemma record_error_pipeline_affecting (now : Q) (tld : Tld) (code : pyval) :
  ¬ benign code →
  ∃ counts : pipeline,
    record_error_pipeline now tld code =
      _record_window_samples now counts (domain_key tld) FAILED ∧
    ∀ c, c ∈ counts → ∃ key, c = INCR key.
Proof.
  intros Hnb. unfold record_error_pipeline.
  assert (py_eq code (PyInt 404) || py_eq code (PyStr "UnidentifiedImageError")
          = false) as ->.
  { apply orb_false_iff. unfold py_eq, benign in *.
    split; apply bool_decide_eq_false; naive_solver. }
  destruct (truthy code); eexists; (split; [reflexivity|]);
    intros c Hc; set_solver.
Qed.

(** After the window commands, the sample sits in each of the windows. *)
Lemma window_sample_recorded (now : Q) (pipe : pipeline) (d : string)
    (success : Z) (st : store) (stat_key : string) (interval : Z) :
  (stat_key, interval) ∈ WINDOW_PAIRS →
  (now, success) ∈
    zrange (execute (_record_window_samples now pipe d success) st) (stat_key +:+ d).
Proof.
  intros Hpair. rewrite _record_window_samples_unfold, execute_app.
  generalize (execute pipe st). intros st0.
  unfold execute. cbn [foldl].
  assert (stat_key = STATUS_60s ∨ stat_key = STATUS_1HR ∨ stat_key = STATUS_12HR)
    as Hkey by (unfold WINDOW_PAIRS in Hpair; set_solver).
  destruct Hkey as [-> | [-> | ->]];
    repeat first
      [ apply zrange_zadd_eq
      | apply zrange_trim_keeps; [done|]
      | apply zrange_zadd_keeps ].
Qed.

(** ** Freshness of the windows *)

Lemma inject_Z_pos (z : Z) : 0 < z → (0 < inject_Z z)%Q.
Proof. intros Hz. unfold Qlt. cbn. lia. Qed.

Lemma trim_all_above (st : store) (key : string) (b : Q) :
  all_above b (apply_command (ZREMRANGEBYSCORE key NegInf (Score b)) st) key.
Proof.
  intros e. unfold zrange at 1. cbn. rewrite lookup_insert_eq. cbn.
  unfold zremrangebyscore. rewrite list_elem_of_filter.
  unfold in_score_range. cbn. intros [Hout _].
  destruct (Qlt_le_dec b e.1) as [|Hle]; [done|].
  apply Qle_bool_iff in Hle. congruence.
Qed.

Lemma zadd_all_above (st : store) (key key' : string) (b score : Q) (member : Z) :
  (b < score)%Q →
  all_above b st key →
  all_above b (apply_command (ZADD key' score member) st) key.
Proof.
  intros Hb Hall e. unfold zrange at 1. cbn.
  destruct (decide (key' = key)) as [->|Hne].
  - rewrite lookup_insert_eq. cbn. unfold zadd.
    rewrite elem_of_app, list_elem_of_filter, list_elem_of_singleton.
    intros [[_ He] | ->]; [by apply Hall | done].
  - rewrite lookup_insert_ne by done. apply Hall.
Qed.

Lemma trim_keeps_all_above (st : store) (key key' : string) (b : Q) (lo hi : bound) :
  all_above b st key →
  all_above b (apply_command (ZREMRANGEBYSCORE key' lo hi) st) key.
Proof.
  intros Hall e. unfold zrange at 1. cbn.
  destruct (decide (key' = key)) as [->|Hne].
  - rewrite lookup_insert_eq. cbn. unfold zremrangebyscore.
    rewrite list_elem_of_filter. intros [_ He]. by apply Hall.
  - rewrite lookup_insert_ne by done. apply Hall.
Qed.

Lemma window_samples_all_above (now : Q) (pipe : pipeline) (d : string)
    (success : Z) (st : store) (stat_key : string) (interval : Z) :
  (stat_key, interval) ∈ WINDOW_PAIRS →
  all_above (now - inject_Z interval)
    (execute (_record_window_samples now pipe d success) st) (stat_key +:+ d).
Proof.
  intros Hpair. rewrite _record_window_samples_unfold, execute_app.
  generalize (execute pipe st). intros st0.
  unfold execute. cbn [foldl].
  pose proof (inject_Z_pos ONE_MINUTE eq_refl).
  pose proof (inject_Z_pos ONE_HOUR eq_refl).
  pose proof (inject_Z_pos TWELVE_HOURS eq_refl).
  assert ((stat_key, interval) = (STATUS_60s, ONE_MINUTE) ∨
          (stat_key, interval) = (STATUS_1HR, ONE_HOUR) ∨
          (stat_key, interval) = (STATUS_12HR, TWELVE_HOURS))
    as Hkey by (unfold WINDOW_PAIRS in Hpair; set_solver).
  destruct Hkey as [Heq | [Heq | Heq]]; injection Heq as -> ->;
    repeat first
      [ apply trim_all_above
      | apply trim_keeps_all_above
      | apply zadd_all_above; [lra|] ].
Qed.

Lemma window_samples_fresh (now : Q) (pipe : pipeline) (d : string)
    (success : Z) (st : store) :
  windows_fresh now (execute (_record_window_samples now pipe d success) st) d.
Proof.
  intros stat_key interval Hpair e He. apply Qlt_le_weak.
  by eapply window_samples_all_above.
Qed.

(** ** The list of recent requests *)

Lemma execute_lists_frame (pipe : pipeline) (st : store) :
  Forall (λ c, touches_lists c = false) pipe →
  lists (execute pipe st) = lists st.
Proof.
  revert st. induction pipe as [|c pipe IH]; intros st Hall; [done|].
  apply Forall_cons in Hall as [Hc Hall].
  change (execute (c :: pipe) st) with (execute pipe (apply_command c st)).
  rewrite IH by done. by destruct c.
Qed.

Lemma record_error_pipeline_no_list_command (now : Q) (tld : Tld) (code : pyval) :
  Forall (λ c, touches_lists c = false) (record_error_pipeline now tld code).
Proof.
  unfold record_error_pipeline.
  destruct (truthy code);
    [destruct (py_eq code (PyInt 404) || py_eq code (PyStr "UnidentifiedImageError"))|];
    cbn iota beta; rewrite ?_record_window_samples_unfold; cbn [app];
    repeat (apply Forall_cons; split; [done|]); apply Forall_nil_2.
Qed.

Lemma record_error_lists_unchanged (now : Q) (tld : Tld) (code : pyval)
    (self : StatsManager) :
  lists (redis (record_error now tld code self)) = lists (redis self).
Proof.
  cbn. apply execute_lists_frame, record_error_pipeline_no_list_command.
Qed.

Lemma ltrim_last_50_length {A} (l : list A) :
  (length (ltrim (-50) (-1) l) ≤ 50)%nat.
Proof.
  unfold ltrim. cbn [Z.ltb Z.compare].
  destruct (_ || _); cbn; [lia|]. rewrite length_take. lia.
Qed.

Lemma ltrim_last_50_short {A} (l : list A) :
  (length l ≤ 50)%nat → ltrim (-50) (-1) l = l.
Proof.
  intros Hlen. unfold ltrim. cbn [Z.ltb Z.compare].
  destruct l as [|x l]; [done|].
  set (len := Z.of_nat (length (x :: l))).
  assert (1 ≤ len ≤ 50) by (subst len; cbn [length] in *; lia).
  replace (Z.max 0 (len + -50)) with 0 by lia.
  destruct (Z.ltb_spec (len + -1) 0); [lia|].
  destruct (Z.leb_spec len 0); [lia|].
  cbn [orb Z.to_nat drop]. apply take_ge. subst len. lia.
Qed.

Lemma lrange_rpush (st : store) (key value : string) :
  lrange (apply_command (RPUSH key value) st) key = lrange st key ++ [value].
Proof. unfold lrange at 1. cbn. by rewrite lookup_insert_eq. Qed.

Lemma lrange_ltrim (st : store) (key : string) (start stop : Z) :
  lrange (apply_command (LTRIM key start stop) st) key =
  ltrim start stop (lrange st key).
Proof. unfold lrange at 1. cbn. by rewrite lookup_insert_eq. Qed.

(** What the helper does once it is called: the status goes to the end of
    the list, which keeps its last fifty entries. *)
Lemma _record_last_50_requests_sample_spec (d : string) (status : pyval) (st : store) :
  let before := lrange st (LAST_50_REQUESTS +:+ d) in
  let after :=
    lrange (execute (_record_last_50_requests_sample [] d status) st)
      (LAST_50_REQUESTS +:+ d) in
  after = ltrim (-50) (-1) (before ++ [py_str status]) ∧
  (length after ≤ 50)%nat ∧
  ((length before < 50)%nat → after = before ++ [py_str status]).
Proof.
  intros before after. subst before after.
  change (execute (_record_last_50_requests_sample [] d status) st)
    with (apply_command (LTRIM (LAST_50_REQUESTS +:+ d) (-50) (-1))
            (apply_command (RPUSH (LAST_50_REQUESTS +:+ d) (py_str status)) st)).
  rewrite lrange_ltrim, lrange_rpush.
  split_and!; [done | apply ltrim_last_50_length |].
  intros Hshort. apply ltrim_last_50_short. rewrite length_app. cbn. lia.
Qed.

(** ** Claims about [record_error] *)

(** C1.  A call [record_error(tld, code)] whose code is [404] or
    ['UnidentifiedImageError'] adds one to the global error counter, to the
    error counter of the domain and to the counter of the domain and code,
    and leaves every sliding window as it was.  With any other code (or
    none) the failure member [(now, FAILED)] is in each of the three windows
    of the domain afterwards. *)
Theorem record_error_benign_isolation (now : Q) (tld : Tld) (code : pyval)
    (self : StatsManager) :
  let d := domain_key tld in
  let before := redis self in
  let after := redis (record_error now tld code self) in
  (benign code →
     get after ERROR_COUNT = get before ERROR_COUNT + 1 ∧
     get after (TLD_ERRORS +:+ d) = get before (TLD_ERRORS +:+ d) + 1 ∧
     get after (TLD_ERRORS +:+ d +:+ ":" +:+ py_str code) =
       get before (TLD_ERRORS +:+ d +:+ ":" +:+ py_str code) + 1 ∧
     zsets after = zsets before) ∧
  (¬ benign code →
     ∀ stat_key interval, (stat_key, interval) ∈ WINDOW_PAIRS →
       (now, FAILED) ∈ zrange after (stat_key +:+ d)).
Proof.
  intros d before after. subst after. unfold record_error. cbn [redis].
  fold before. split.
  - intros Hb. rewrite record_error_pipeline_benign by done. fold d.
    destruct (error_keys_distinct d (py_str code)) as (H12 & H13 & H23).
    unfold execute. cbn [foldl].
    split_and!.
    + rewrite !get_incr_ne by done. apply get_incr_eq.
    + rewrite get_incr_ne by done. rewrite get_incr_eq.
      by rewrite get_incr_ne.
    + rewrite get_incr_eq. by rewrite !get_incr_ne.
    + done.
  - intros Hnb stat_key interval Hpair.
    destruct (record_error_pipeline_affecting now tld code Hnb) as (counts & -> & _).
    by eapply window_sample_recorded.
Qed.

Lemma record_error_benign_isolation_witness :
  (benign (PyInt 404) ∧
   zsets (redis (record_error 100 example_com (PyInt 404) (new_StatsManager empty_store)))
     = zsets empty_store) ∧
  (¬ benign (PyInt 500) ∧
   (100%Q, FAILED) ∈
     zrange (redis (record_error 100 example_com (PyInt 500) (new_StatsManager empty_store)))
       (STATUS_60s +:+ domain_key example_com)).
Proof.
  split.
  - split; [by left|].
    apply (record_error_benign_isolation 100 example_com (PyInt 404)
             (new_StatsManager empty_store)).
    by left.
  - assert (¬ benign (PyInt 500)) as Hnb by (intros [?|?]; discriminate).
    split; [exact Hnb|].
    apply (proj2 (record_error_benign_isolation 100 example_com (PyInt 500)
                    (new_StatsManager empty_store)) Hnb STATUS_60s ONE_MINUTE).
    unfold WINDOW_PAIRS. apply list_elem_of_here.
Defined.

(** C2.  [record_error] never queues the commands of
    [_record_last_50_requests_sample]: after [record_error(tld, 500)] on an
    empty store the list [statuslast50req:example.com] is still empty, so
    the code was not appended to it. *)
Theorem record_error_skips_recent_requests :
  lrange (redis (record_error 100 example_com (PyInt 500) (new_StatsManager empty_store)))
    (LAST_50_REQUESTS +:+ domain_key example_com) = [] ∧
  "500" ∉
    lrange (redis (record_error 100 example_com (PyInt 500) (new_StatsManager empty_store)))
      (LAST_50_REQUESTS +:+ domain_key example_com).
Proof.
  assert (lrange (redis (record_error 100 example_com (PyInt 500)
                           (new_StatsManager empty_store)))
            (LAST_50_REQUESTS +:+ domain_key example_com) = []) as ->.
  { unfold lrange. by rewrite record_error_lists_unchanged. }
  split; [done | apply not_elem_of_nil].
Qed.

(** C3 as stated fails: a [record_error] call with code [404] does not trim
    the windows, so a sample that [record_success] stored at time 0 is still
    in [status60s:example.com] after the call at time 100. *)
Lemma stale_sample_survives_benign_error :
  ¬ (∀ (now : Q) (tld : Tld) (code : pyval) (self : StatsManager),
       windows_fresh now (redis (record_error now tld code self)) (domain_key tld)).
Proof.
  intros Hfresh.
  specialize (Hfresh 100%Q example_com (PyInt 404)
                (record_success 0 example_com (new_StatsManager empty_store))
                STATUS_60s ONE_MINUTE).
  specialize (Hfresh ltac:(apply list_elem_of_here) (0%Q, SUCCEEDED)).
  assert ((0%Q, SUCCEEDED) ∈
            zrange (redis (record_error 100 example_com (PyInt 404)
                     (record_success 0 example_com (new_StatsManager empty_store))))
              (STATUS_60s +:+ domain_key example_com)) as Hin.
  { vm_compute. apply list_elem_of_here. }
  specialize (Hfresh Hin). vm_compute in Hfresh. by apply Hfresh.
Qed.

(** C3, amended.  After [record_success], and after [record_error] with a
    code other than [404] and ['UnidentifiedImageError'], every member left
    in a window of the domain is scored at least [now] minus the interval of
    that window. *)
Theorem windows_fresh_after_sample (now : Q) (tld : Tld) (self : StatsManager) :
  windows_fresh now (redis (record_success now tld self)) (domain_key tld) ∧
  ∀ code, ¬ benign code →
    windows_fresh now (redis (record_error now tld code self)) (domain_key tld).
Proof.
  split.
  - apply window_samples_fresh.
  - intros code Hnb. cbn [record_error redis].
    destruct (record_error_pipeline_affecting now tld code Hnb) as (counts & -> & _).
    apply window_samples_fresh.
Qed.

Lemma windows_fresh_after_sample_witness :
  ¬ benign (PyInt 500) ∧
  windows_fresh 100
    (redis (record_error 100 example_com (PyInt 500)
              (record_success 0 example_com (new_StatsManager empty_store))))
    (domain_key example_com).
Proof.
  assert (¬ benign (PyInt 500)) as Hnb by (intros [?|?]; discriminate).
  split; [exact Hnb|].
  exact (proj2 (windows_fresh_after_sample 100 example_com
                  (record_success 0 example_com (new_StatsManager empty_store)))
           (PyInt 500) Hnb).
Defined.

(** ** [update_tlds] *)

Lemma update_tlds_known (tld : string) (self : StatsManager) :
  tld ∈ known_tlds (update_tlds tld self).
Proof.
  unfold update_tlds. case_decide as Hnew; cbn.
  - set_solver.
  - done.
Qed.

Lemma update_tlds_seen (tld : string) (self : StatsManager) :
  tld ∈ known_tlds self → update_tlds tld self = self.
Proof. intros Hin. unfold update_tlds. by rewrite decide_False by auto. Qed.

(** C8.  Any positive number of [update_tlds(tld)] calls on one manager
    leaves the mirror and the store as a single call does, and in all the
    store receives at most the one [SADD] of the first call. *)
Theorem update_tlds_idempotent (tld : string) (self : StatsManager) (n : nat) :
  let once := update_tlds tld self in
  let many := Nat.iter (S n) (update_tlds tld) self in
  many = once ∧
  update_tlds tld once = once ∧
  journal (redis many) =
    journal (redis self) ++
      (if decide (tld ∈ known_tlds self) then [] else [SADD KNOWN_TLDS tld]).
Proof.
  intros once many.
  assert (update_tlds tld once = once) as Hagain
    by apply update_tlds_seen, update_tlds_known.
  assert (many = once) as ->.
  { subst many. induction n as [|n IH]; [done|].
    change (Nat.iter (S (S n)) (update_tlds tld) self)
      with (update_tlds tld (Nat.iter (S n) (update_tlds tld) self)).
    by rewrite IH. }
  split_and!; [done..|].
  subst once. unfold update_tlds.
  destruct (decide (tld ∈ known_tlds self)) as [Hin|Hout].
  - rewrite decide_False by auto. by rewrite app_nil_r.
  - by rewrite decide_True.
Qed.

(** ** The members of a window *)

Lemma window_ok_nil : window_ok [].
Proof. split; [constructor | set_solver]. Qed.

Lemma window_ok_length (zs : list (Q * Z)) :
  window_ok zs → (length zs ≤ 2)%nat.
Proof.
  intros [Hnd Hmem]. rewrite <- (length_fmap snd).
  change 2%nat with (length [FAILED; SUCCEEDED]).
  apply submseteq_length, NoDup_submseteq; [done|].
  intros m Hm. destruct (Hmem m Hm) as [-> | ->]; set_solver.
Qed.

Lemma window_ok_filter (P : Q * Z → Prop) `{!∀ e, Decision (P e)}
    (zs : list (Q * Z)) :
  window_ok zs → window_ok (filter P zs).
Proof.
  intros [Hnd Hmem].
  assert ((filter P zs).*2 `sublist_of` zs.*2) as Hsub
    by (apply fmap_sublist, sublist_filter).
  split.
  - by eapply sublist_NoDup.
  - intros m Hm. apply Hmem. by eapply elem_of_sublist.
Qed.

Lemma window_ok_zadd (score : Q) (member : Z) (zs : list (Q * Z)) :
  member = FAILED ∨ member = SUCCEEDED →
  window_ok zs → window_ok (zadd score member zs).
Proof.
  intros Hm Hok. unfold zadd.
  destruct (window_ok_filter (λ e : Q * Z, e.2 ≠ member) zs Hok) as [Hnd Hmem].
  split.
  - rewrite fmap_app. apply NoDup_app. split_and!; [done| |apply NoDup_singleton].
    intros m Hin Hm'. cbn in Hm'. apply list_elem_of_singleton in Hm' as ->.
    apply list_elem_of_fmap in Hin as (e & -> & He).
    apply list_elem_of_filter in He as [Hne _]. done.
  - intros m. rewrite fmap_app, elem_of_app. intros [Hin | Hin]; [by apply Hmem|].
    cbn in Hin. by apply list_elem_of_singleton in Hin as ->.
Qed.

Lemma zrange_window_ok (st : store) (key : string) :
  windows_ok st → window_ok (zrange st key).
Proof.
  intros Hok. unfold zrange. destruct (zsets st !! key) as [zs|] eqn:Hzs; cbn.
  - by eapply Hok.
  - apply window_ok_nil.
Qed.

Lemma apply_command_windows_ok (c : command) (st : store) :
  outcome_command c → windows_ok st → windows_ok (apply_command c st).
Proof.
  intros Hc Hok. pose proof (zrange_window_ok st) as Hrange.
  destruct c; cbn in Hc; try exact Hok; intros k zs; cbn;
    (destruct (decide (key = k)) as [->|Hne];
     [ rewrite lookup_insert_eq; intros [= <-]
     | rewrite lookup_insert_ne by done; apply Hok ]).
  - by apply window_ok_zadd, Hrange.
  - by apply window_ok_filter, Hrange.
Qed.

Lemma execute_windows_ok (pipe : pipeline) (st : store) :
  Forall outcome_command pipe → windows_ok st → windows_ok (execute pipe st).
Proof.
  revert st. induction pipe as [|c pipe IH]; intros st Hall Hok; [done|].
  apply Forall_cons in Hall as [Hc Hall].
  change (execute (c :: pipe) st) with (execute pipe (apply_command c st)).
  by apply IH, apply_command_windows_ok.
Qed.

Lemma record_error_pipeline_outcomes (now : Q) (tld : Tld) (code : pyval) :
  Forall outcome_command (record_error_pipeline now tld code).
Proof.
  unfold record_error_pipeline.
  destruct (truthy code);
    [destruct (py_eq code (PyInt 404) || py_eq code (PyStr "UnidentifiedImageError"))|];
    cbn iota beta; rewrite ?_record_window_samples_unfold; cbn [app];
    repeat (apply Forall_cons; split; [by cbn; auto|]); apply Forall_nil_2.
Qed.

Lemma record_success_pipeline_outcomes (now : Q) (tld : Tld) :
  Forall outcome_command (record_success_pipeline now tld).
Proof.
  unfold record_success_pipeline.
  rewrite _record_window_samples_unfold; cbn [app];
    repeat (apply Forall_cons; split; [by cbn; auto|]); apply Forall_nil_2.
Qed.

Lemma perform_windows_ok (self : StatsManager) (c : call) :
  windows_ok (redis self) → windows_ok (redis (perform self c)).
Proof.
  intros Hok. destruct c as [now tld | now tld code | tld]; cbn [perform].
  - by apply execute_windows_ok, Hok; apply record_success_pipeline_outcomes.
  - by apply execute_windows_ok, Hok; apply record_error_pipeline_outcomes.
  - unfold update_tlds. case_decide; [|done].
    by apply apply_command_windows_ok.
Qed.

Lemma run_windows_ok (calls : list call) (self : StatsManager) :
  windows_ok (redis self) → windows_ok (redis (run calls self)).
Proof.
  revert self. induction calls as [|c calls IH]; intros self Hok; [done|].
  change (run (c :: calls) self) with (run calls (perform self c)).
  by apply IH, perform_windows_ok.
Qed.

Lemma filter_none {A} (P : A → Prop) `{!∀ x, Decision (P x)} (l : list A) :
  (∀ x, x ∈ l → ¬ P x) → filter P l = [].
Proof.
  induction l as [|x l IH]; intros Hnone; [done|].
  rewrite filter_cons_False by (apply Hnone; left).
  apply IH. intros y Hy. apply Hnone. by right.
Qed.

Lemma unique_member_entry (zs : list (Q * Z)) (score : Q) (member : Z) :
  NoDup zs.*2 → (score, member) ∈ zs →
  filter (λ e : Q * Z, e.2 = member) zs = [(score, member)].
Proof.
  induction zs as [|[s m] zs IH]; intros Hnd Hin; [by apply elem_of_nil in Hin|].
  cbn in Hnd. apply NoDup_cons in Hnd as [Hfresh Hnd].
  apply elem_of_cons in Hin as [[= <- <-] | Hin].
  - rewrite filter_cons_True by done. f_equal.
    apply filter_none. intros [s' m'] He Hm. cbn in Hm. subst m'.
    apply Hfresh. by apply (list_elem_of_fmap_2 snd) in He.
  - assert (m ≠ member) as Hne.
    { intros ->. apply Hfresh. by apply (list_elem_of_fmap_2 snd) in Hin. }
    rewrite filter_cons_False by (cbn; congruence). by apply IH.
Qed.

(** C9.  In a store that only a [StatsManager] has written, each sorted set
    holds no member twice, holds only the members [FAILED] and [SUCCEEDED],
    and so holds at most two members, whatever calls were made.  A further
    [record_success] leaves one entry for [SUCCEEDED] in each window of the
    domain, scored with the time of that call: the earlier sample is
    replaced, not kept beside it. *)
Theorem window_holds_two_members (calls : list call) (key : string) :
  let self := run calls (new_StatsManager empty_store) in
  let members := (zrange (redis self) key).*2 in
  NoDup members ∧
  (∀ m, m ∈ members → m = FAILED ∨ m = SUCCEEDED) ∧
  (length members ≤ 2)%nat ∧
  ∀ now tld stat_key interval, (stat_key, interval) ∈ WINDOW_PAIRS →
    filter (λ e : Q * Z, e.2 = SUCCEEDED)
      (zrange (redis (record_success now tld self)) (stat_key +:+ domain_key tld))
    = [(now, SUCCEEDED)].
Proof.
  intros self members.
  assert (windows_ok (redis self)) as Hself.
  { apply run_windows_ok. intros k zs. cbn. by rewrite lookup_empty. }
  destruct (zrange_window_ok (redis self) key Hself) as [Hnd Hmem].
  split_and!; [done..| |].
  - subst members. rewrite length_fmap. by apply window_ok_length.
  - intros now tld stat_key interval Hpair.
    apply unique_member_entry.
    + apply (zrange_window_ok _ _ (perform_windows_ok self (RecordSuccess now tld) Hself)).
    + by eapply window_sample_recorded.
Qed.

(** ** The usage report *)

(** C10.  [generate_usage_report] always returns a report: the division by
    a zero count of sessions is caught, and the report then carries the
    average 0; with a non-zero count it carries the quotient of the
    searches by the sessions. *)
Theorem generate_usage_report_total (session : Reporting.Session)
    (start_time end_time : Z) :
  ∃ report,
    Reporting.generate_usage_report session start_time end_time = inr report ∧
    Reporting.sessions report =
      Reporting.count_distinct Reporting.session_uuid
        (λ e, Reporting.between start_time end_time (Reporting.se_timestamp e))
        (Reporting.search_events session) ∧
    Reporting.searches report =
      Reporting.count
        (λ e, Reporting.between start_time end_time (Reporting.se_timestamp e))
        (Reporting.search_events session) ∧
    (Reporting.sessions report = 0 ∧
       Reporting.avg_searches_per_session report = 0%Q
     ∨
     Reporting.sessions report ≠ 0 ∧
       Reporting.avg_searches_per_session report =
         (inject_Z (Reporting.searches report)
          / inject_Z (Reporting.sessions report))%Q).
Proof.
  eexists. split; [reflexivity|]. cbn.
  split_and!; [done..|].
  unfold Reporting.truediv. case_decide as Hzero; [left | right]; done.
Qed.

(** ** The size-to-rate mapping *)

Lemma Qle_bool_false (x y : Q) : (y < x)%Q → Qle_bool x y = false.
Proof.
  intros Hlt. destruct (Qle_bool x y) eqn:Hle; [|done].
  apply Qle_bool_iff in Hle. lra.
Qed.

Lemma Qle_bool_true (x y : Q) : (x <= y)%Q → Qle_bool x y = true.
Proof. apply Qle_bool_iff. Qed.

Lemma inject_Z_le (x y : Z) : x ≤ y → (inject_Z x <= inject_Z y)%Q.
Proof. intros Hle. unfold Qle. cbn. lia. Qed.

Lemma inject_Z_lt (x y : Z) : x < y → (inject_Z x < inject_Z y)%Q.
Proof. intros Hlt. unfold Qlt. cbn. lia. Qed.

(** From [MAX_CRAWL_SIZE] images on, the rate is the ceiling. *)
Lemma compute_crawl_rate_at_max_size (cfg : RateLimit.Config) (image_count : Q) :
  (inject_Z (RateLimit.MAX_CRAWL_SIZE cfg) <= image_count)%Q →
  RateLimit.compute_crawl_rate cfg image_count = RateLimit.MAX_CRAWL_RPS cfg.
Proof.
  intros Hle. unfold RateLimit.compute_crawl_rate.
  by rewrite Qle_bool_true.
Qed.

(** The rate stays between the floor and the ceiling. *)
Lemma compute_crawl_rate_bounds (cfg : RateLimit.Config) (image_count : Q) :
  RateLimit.MIN_CRAWL_RPS cfg ≤ RateLimit.MAX_CRAWL_RPS cfg →
  RateLimit.MIN_CRAWL_RPS cfg ≤ RateLimit.compute_crawl_rate cfg image_count
    ≤ RateLimit.MAX_CRAWL_RPS cfg.
Proof.
  intros Hcfg. unfold RateLimit.compute_crawl_rate.
  destruct (Qle_bool _ _); lia.
Qed.

(** No images give the floor. *)
Lemma compute_crawl_rate_zero (cfg : RateLimit.Config) :
  0 ≤ RateLimit.MIN_CRAWL_RPS cfg →
  0 < RateLimit.MAX_CRAWL_SIZE cfg →
  RateLimit.compute_crawl_rate cfg 0 = RateLimit.MIN_CRAWL_RPS cfg.
Proof.
  intros Hmin Hsize. unfold RateLimit.compute_crawl_rate.
  rewrite Qle_bool_false by (by apply (inject_Z_lt 0)).
  assert (inject_Z (RateLimit.MAX_CRAWL_RPS cfg) * 0
          / inject_Z (RateLimit.MAX_CRAWL_SIZE cfg) == 0)%Q as ->
    by (unfold Qdiv; ring).
  change (Qfloor 0) with 0. lia.
Qed.

(** The rate never falls when the image count grows. *)
Lemma compute_crawl_rate_monotone (cfg : RateLimit.Config) (image_count image_count' : Q) :
  RateLimit.MIN_CRAWL_RPS cfg ≤ RateLimit.MAX_CRAWL_RPS cfg →
  0 ≤ RateLimit.MAX_CRAWL_RPS cfg →
  0 < RateLimit.MAX_CRAWL_SIZE cfg →
  (image_count <= image_count')%Q →
  RateLimit.compute_crawl_rate cfg image_count
    ≤ RateLimit.compute_crawl_rate cfg image_count'.
Proof.
  intros Hcfg Hmax Hsize Hle.
  destruct (Qlt_le_dec image_count' (inject_Z (RateLimit.MAX_CRAWL_SIZE cfg)))
    as [Hbelow | Habove].
  - unfold RateLimit.compute_crawl_rate.
    rewrite !Qle_bool_false by (try done; by eapply Qle_lt_trans).
    assert (Qfloor (inject_Z (RateLimit.MAX_CRAWL_RPS cfg) * image_count
                    / inject_Z (RateLimit.MAX_CRAWL_SIZE cfg))
            ≤ Qfloor (inject_Z (RateLimit.MAX_CRAWL_RPS cfg) * image_count'
                      / inject_Z (RateLimit.MAX_CRAWL_SIZE cfg))); [|lia].
    apply Qfloor_resp_le. unfold Qdiv. apply Qmult_le_compat_r.
    + rewrite !(Qmult_comm (inject_Z (RateLimit.MAX_CRAWL_RPS cfg))).
      apply Qmult_le_compat_r; [done | by apply (inject_Z_le 0)].
    + apply Qinv_le_0_compat, (inject_Z_le 0). lia.
  - rewrite (compute_crawl_rate_at_max_size cfg image_count') by done.
    by apply compute_crawl_rate_bounds.
Qed.

(** ** One tick of the regulator *)

Lemma smembers_sadd (st : store) (key key' member : string) :
  smembers (apply_command (SADD key member) st) key' =
  if decide (key = key') then {[member]} ∪ smembers st key else smembers st key'.
Proof.
  unfold smembers at 1. cbn. case_decide as Hkey.
  - subst key'. by rewrite lookup_insert_eq.
  - by rewrite lookup_insert_ne.
Qed.

Lemma get_set_eq (st : store) (key : string) (value : Z) :
  get (apply_command (SET key value) st) key = value.
Proof. unfold get. cbn. by rewrite lookup_insert_eq. Qed.

(** What [regulate] leaves behind for a source whose domain is known. *)
Lemma regulate_known (cfg : RateLimit.Config) (canonicalise : string → Tld) (now : Q)
    (st : store) (source : RateLimit.Source) (d : string) :
  domain_key (canonicalise (RateLimit.source_url source)) = d →
  d ∈ smembers st KNOWN_TLDS →
  let st' := RateLimit.regulate cfg canonicalise now st source in
  let halted := d ∈ smembers st RateLimit.HALTED ∨ RateLimit.hard_halt_tripped st d = true in
  let temp_halted :=
    d ∈ smembers st RateLimit.TEMP_HALTED ∨ RateLimit.temp_halt_tripped cfg now st d = true in
  (d ∈ smembers st' RateLimit.HALTED ↔ halted) ∧
  (d ∈ smembers st' RateLimit.TEMP_HALTED ↔ temp_halted) ∧
  (halted ∨ temp_halted → get st' (RateLimit.CURRTOKENS +:+ d) = 0) ∧
  (¬ halted → ¬ temp_halted →
     get st' (RateLimit.CURRTOKENS +:+ d) =
       RateLimit.compute_crawl_rate cfg (inject_Z (RateLimit.image_count source))).
Proof.
  intros Hd Hknown st' halted temp_halted. subst st' halted temp_halted.
  unfold RateLimit.regulate. rewrite Hd. rewrite decide_True by done.
  set (st1 := if RateLimit.hard_halt_tripped st d
              then apply_command (SADD RateLimit.HALTED d) st else st).
  assert (RateLimit.temp_halt_tripped cfg now st1 d =
          RateLimit.temp_halt_tripped cfg now st d) as ->
    by (subst st1; by destruct (RateLimit.hard_halt_tripped st d)).
  set (st2 := if RateLimit.temp_halt_tripped cfg now st d
              then apply_command (SADD RateLimit.TEMP_HALTED d) st1 else st1).
  assert (d ∈ smembers st2 RateLimit.HALTED ↔
          d ∈ smembers st RateLimit.HALTED ∨ RateLimit.hard_halt_tripped st d = true)
    as Hhalted.
  { subst st2 st1.
    destruct (RateLimit.temp_halt_tripped cfg now st d),
             (RateLimit.hard_halt_tripped st d);
      rewrite ?smembers_sadd; repeat case_decide; try done; set_solver. }
  assert (d ∈ smembers st2 RateLimit.TEMP_HALTED ↔
          d ∈ smembers st RateLimit.TEMP_HALTED ∨
          RateLimit.temp_halt_tripped cfg now st d = true)
    as Htemp.
  { subst st2 st1.
    destruct (RateLimit.temp_halt_tripped cfg now st d),
             (RateLimit.hard_halt_tripped st d);
      rewrite ?smembers_sadd; repeat case_decide; try done; set_solver. }
  rewrite <- Hhalted, <- Htemp. split_and!; [done..| |].
  - intros Hin. rewrite get_set_eq. rewrite decide_True; [done | set_solver].
  - intros Hh Ht. rewrite get_set_eq. rewrite decide_False; [done | set_solver].
Qed.

Lemma tick_fixture (cfg : RateLimit.Config) (canonicalise : string → Tld) (now : Q)
    (st : store) :
  RateLimit.tick cfg canonicalise now (Some RateLimit.source_fixture) st =
  RateLimit.regulate cfg canonicalise now st RateLimit.example_source.
Proof. reflexivity. Qed.

(** C4.  With the source list of the tests, [example.com] among the known
    domains and 51 entries ["500"] in [statuslast50req:example.com], one
    tick puts the domain in [halted] and leaves [currtokens:example.com]
    at 0. *)
Theorem tick_hard_halt (cfg : RateLimit.Config) (canonicalise : string → Tld)
    (now : Q) (st : store) :
  domain_key (canonicalise "example.com") = "example.com" →
  "example.com" ∈ smembers st KNOWN_TLDS →
  lrange st "statuslast50req:example.com" = replicate 51 "500" →
  let st' := RateLimit.tick cfg canonicalise now (Some RateLimit.source_fixture) st in
  "example.com" ∈ smembers st' RateLimit.HALTED ∧
  get st' "currtokens:example.com" = 0.
Proof.
  intros Hcanon Hknown Hrecent st'. subst st'. rewrite tick_fixture.
  destruct (regulate_known cfg canonicalise now st RateLimit.example_source
              "example.com" Hcanon Hknown) as (Hh & _ & Htokens & _).
  assert (RateLimit.hard_halt_tripped st "example.com" = true) as Hhard.
  { unfold RateLimit.hard_halt_tripped.
    change (LAST_50_REQUESTS +:+ "example.com") with "statuslast50req:example.com".
    rewrite Hrecent. by vm_compute. }
  split.
  - apply Hh. by right.
  - change "currtokens:example.com"
      with (RateLimit.CURRTOKENS +:+ "example.com").
    apply Htokens. left. by right.
Qed.

Lemma tick_hard_halt_witness :
  "example.com" ∈
    smembers (RateLimit.tick example_config example_canonicalise 100
                (Some RateLimit.source_fixture) failing_store) RateLimit.HALTED ∧
  get (RateLimit.tick example_config example_canonicalise 100
         (Some RateLimit.source_fixture) failing_store)
      "currtokens:example.com" = 0.
Proof.
  apply (tick_hard_halt example_config example_canonicalise 100 failing_store).
  - reflexivity.
  - vm_compute. reflexivity.
  - reflexivity.
Defined.

Lemma window_holds_two_members_witness :
  (STATUS_60s, ONE_MINUTE) ∈ WINDOW_PAIRS ∧
  filter (λ e : Q * Z, e.2 = SUCCEEDED)
    (zrange (redis (record_success 7 example_com
                      (run [RecordSuccess 1 example_com; RecordSuccess 2 example_com]
                         (new_StatsManager empty_store))))
       (STATUS_60s +:+ domain_key example_com))
  = [(7%Q, SUCCEEDED)].
Proof.
  assert ((STATUS_60s, ONE_MINUTE) ∈ WINDOW_PAIRS) as Hpair
    by (unfold WINDOW_PAIRS; apply list_elem_of_here).
  split; [exact Hpair|].
  exact (proj2 (proj2 (proj2
           (window_holds_two_members
              [RecordSuccess 1 example_com; RecordSuccess 2 example_com]
              (STATUS_60s +:+ domain_key example_com))))
           7%Q example_com STATUS_60s ONE_MINUTE Hpair).
Defined.

(** ** Counters under the recording calls *)

Lemma _record_window_samples_sampling (now : Q) (pipe : pipeline) (d : string)
    (success : Z) :
  Forall sampling_command pipe →
  Forall sampling_command (_record_window_samples now pipe d success).
Proof.
  intros Hpipe. rewrite _record_window_samples_unfold.
  apply Forall_app. split; [done|].
  repeat (apply Forall_cons; split; [exact I|]). apply Forall_nil_2.
Qed.

Lemma record_success_pipeline_sampling (now : Q) (tld : Tld) :
  Forall sampling_command (record_success_pipeline now tld).
Proof.
  apply _record_window_samples_sampling.
  repeat (apply Forall_cons; split; [exact I|]). apply Forall_nil_2.
Qed.

Lemma record_error_pipeline_sampling (now : Q) (tld : Tld) (code : pyval) :
  Forall sampling_command (record_error_pipeline now tld code).
Proof.
  unfold record_error_pipeline.
  destruct (truthy code);
    [destruct (py_eq code (PyInt 404) || py_eq code (PyStr "UnidentifiedImageError"))|];
    cbn iota beta; try apply _record_window_samples_sampling;
    repeat (apply Forall_cons; split; [exact I|]); apply Forall_nil_2.
Qed.

Lemma incr_count_cons (key : string) (c : command) (pipe : pipeline) :
  incr_count key (c :: pipe) =
  (if decide (incr_key c = Some key) then 1 else 0) + incr_count key pipe.
Proof.
  unfold incr_count. rewrite filter_cons. case_decide; cbn [length]; lia.
Qed.

Lemma incr_count_app (key : string) (p q : pipeline) :
  incr_count key (p ++ q) = incr_count key p + incr_count key q.
Proof. unfold incr_count. rewrite filter_app, length_app. lia. Qed.

Lemma incr_count_nonneg (key : string) (pipe : pipeline) : 0 ≤ incr_count key pipe.
Proof. unfold incr_count. lia. Qed.

Lemma get_apply_sampling (c : command) (st : store) (key : string) :
  sampling_command c →
  get (apply_command c st) key =
  get st key + (if decide (incr_key c = Some key) then 1 else 0).
Proof.
  intros Hc. destruct c as [k| | | | | |]; try done; cbn [incr_key].
  - case_decide as Hk.
    + injection Hk as ->. apply get_incr_eq.
    + rewrite get_incr_ne by congruence. lia.
  - rewrite decide_False by done. unfold get. cbn. lia.
  - rewrite decide_False by done. unfold get. cbn. lia.
Qed.

Lemma get_execute_sampling (pipe : pipeline) (st : store) (key : string) :
  Forall sampling_command pipe →
  get (execute pipe st) key = get st key + incr_count key pipe.
Proof.
  revert st. induction pipe as [|c pipe IH]; intros st Hall.
  - cbn. unfold incr_count. cbn. lia.
  - apply Forall_cons in Hall as [Hc Hall].
    change (execute (c :: pipe) st) with (execute pipe (apply_command c st)).
    rewrite IH, get_apply_sampling, incr_count_cons by done. lia.
Qed.

Lemma incr_count_window_samples (now : Q) (pipe : pipeline) (d : string)
    (success : Z) (key : string) :
  incr_count key (_record_window_samples now pipe d success) = incr_count key pipe.
Proof.
  rewrite _record_window_samples_unfold, incr_count_app.
  rewrite !incr_count_cons. cbn [incr_key].
  rewrite !decide_False by done. unfold incr_count. cbn. lia.
Qed.

Lemma success_keys_distinct (d : string) : SUCCESS_COUNT ≠ TLD_SUCCESS +:+ d.
Proof.
  intros H. apply (f_equal String.length) in H.
  rewrite string_app_length in H. cbn in H. lia.
Qed.

Lemma incr_count_record_success (now : Q) (tld : Tld) (key : string) :
  incr_count key (record_success_pipeline now tld) =
  if decide (key = SUCCESS_COUNT ∨ key = TLD_SUCCESS +:+ domain_key tld)
  then 1 else 0.
Proof.
  unfold record_success_pipeline. rewrite incr_count_window_samples.
  cbn [app]. rewrite !incr_count_cons. cbn [incr_key].
  pose proof (success_keys_distinct (domain_key tld)).
  unfold incr_count. cbn.
  repeat case_decide; simplify_eq; try lia; naive_solver.
Qed.

Lemma incr_count_record_error (now : Q) (tld : Tld) (code : pyval) (key : string) :
  incr_count key (record_error_pipeline now tld code) =
  if decide (key = ERROR_COUNT
             ∨ key = TLD_ERRORS +:+ domain_key tld
             ∨ truthy code = true
               ∧ key = TLD_ERRORS +:+ domain_key tld +:+ ":" +:+ py_str code)
  then 1 else 0.
Proof.
  destruct (error_keys_distinct (domain_key tld) (py_str code)) as (H12 & H13 & H23).
  unfold record_error_pipeline.
  destruct (truthy code);
    [destruct (py_eq code (PyInt 404) || py_eq code (PyStr "UnidentifiedImageError"))|];
    cbn iota beta; rewrite ?incr_count_window_samples;
    cbn [app]; rewrite !incr_count_cons; cbn [incr_key];
    unfold incr_count; cbn;
    repeat case_decide; simplify_eq; try lia; naive_solver.
Qed.

(** X1.  [record_success] adds one to [num_resized] and to
    [num_resized:{domain}] and changes no other counter. *)
Theorem record_success_counters (now : Q) (tld : Tld) (self : StatsManager)
    (key : string) :
  get (redis (record_success now tld self)) key =
  get (redis self) key +
  (if decide (key = SUCCESS_COUNT ∨ key = TLD_SUCCESS +:+ domain_key tld)
   then 1 else 0).
Proof.
  cbn [record_success redis].
  rewrite get_execute_sampling by apply record_success_pipeline_sampling.
  by rewrite incr_count_record_success.
Qed.

(** X2.  [record_error] adds one to [resize_errors], to
    [resize_errors:{domain}] and, when the code is truthy, to
    [resize_errors:{domain}:{code}]; it changes no other counter.  With no
    code, with [0] or with the empty string there is no counter per code. *)
Theorem record_error_counters (now : Q) (tld : Tld) (code : pyval)
    (self : StatsManager) (key : string) :
  get (redis (record_error now tld code self)) key =
  get (redis self) key +
  (if decide (key = ERROR_COUNT
              ∨ key = TLD_ERRORS +:+ domain_key tld
              ∨ truthy code = true
                ∧ key = TLD_ERRORS +:+ domain_key tld +:+ ":" +:+ py_str code)
   then 1 else 0).
Proof.
  cbn [record_error redis].
  rewrite get_execute_sampling by apply record_error_pipeline_sampling.
  by rewrite incr_count_record_error.
Qed.

Lemma success_error_keys_distinct (d x : string) :
  SUCCESS_COUNT ≠ ERROR_COUNT ∧
  SUCCESS_COUNT ≠ TLD_ERRORS +:+ x ∧
  ERROR_COUNT ≠ TLD_SUCCESS +:+ d.
Proof.
  split_and!; intros H; vm_compute in H; discriminate H.
Qed.

Lemma get_update_tlds (tld : string) (self : StatsManager) (key : string) :
  get (redis (update_tlds tld self)) key = get (redis self) key.
Proof. unfold update_tlds. by case_decide. Qed.

(** The increments that one call makes to the counter at [key]. *)
Lemma perform_get (self : StatsManager) (c : call) (key : string) :
  get (redis (perform self c)) key =
  get (redis self) key +
  match c with
  | RecordSuccess now tld => incr_count key (record_success_pipeline now tld)
  | RecordError now tld code => incr_count key (record_error_pipeline now tld code)
  | UpdateTlds _ => 0
  end.
Proof.
  destruct c as [now tld | now tld code | tld]; cbn [perform].
  - apply get_execute_sampling, record_success_pipeline_sampling.
  - apply get_execute_sampling, record_error_pipeline_sampling.
  - rewrite get_update_tlds. lia.
Qed.

Lemma run_cons (c : call) (calls : list call) (self : StatsManager) :
  run (c :: calls) self = run calls (perform self c).
Proof. reflexivity. Qed.

(** X3.  After any run of reporter calls, [num_resized] has grown by the
    number of [record_success] calls and [resize_errors] by the number of
    [record_error] calls, whatever their domains and codes. *)
Theorem run_counts_outcomes (calls : list call) (self : StatsManager) :
  get (redis (run calls self)) SUCCESS_COUNT =
    get (redis self) SUCCESS_COUNT + successes calls ∧
  get (redis (run calls self)) ERROR_COUNT =
    get (redis self) ERROR_COUNT + errors calls.
Proof.
  revert self. induction calls as [|c calls IH]; intros self.
  - cbn. unfold successes, errors. cbn. lia.
  - rewrite run_cons. destruct (IH (perform self c)) as [-> ->].
    rewrite !perform_get. unfold successes, errors. rewrite !filter_cons.
    destruct c as [now tld | now tld code | tld]; cbn [is_success is_error].
    + rewrite !incr_count_record_success.
      destruct (success_error_keys_distinct (domain_key tld) "") as (? & _ & ?).
      rewrite decide_True by auto. rewrite (decide_False (P := ERROR_COUNT = _ ∨ _))
        by (intros [?|?]; congruence).
      rewrite decide_True by done. rewrite (decide_False (P := false = true)) by done.
      cbn [length]. lia.
    + rewrite !incr_count_record_error.
      rewrite (decide_True (P := ERROR_COUNT = _ ∨ _)) by auto.
      rewrite (decide_False (P := SUCCESS_COUNT = _ ∨ _)).
      2:{ intros [H | [H | [_ H]]]; revert H.
          - apply (success_error_keys_distinct "" "").
          - apply (success_error_keys_distinct "" (domain_key tld)).
          - apply (success_error_keys_distinct ""
                     (domain_key tld +:+ ":" +:+ py_str code)). }
      rewrite (decide_True (P := true = true)) by done.
      rewrite (decide_False (P := false = true)) by done.
      cbn [length]. lia.
    + rewrite !(decide_False (P := false = true)) by done. lia.
Qed.

(** X4.  No reporter call lowers a counter: over any run, every counter
    ends at least where it started. *)
Theorem run_counters_monotone (calls : list call) (self : StatsManager)
    (key : string) :
  get (redis self) key ≤ get (redis (run calls self)) key.
Proof.
  revert self. induction calls as [|c calls IH]; intros self; [done|].
  rewrite run_cons. etrans; [|apply IH].
  rewrite perform_get. destruct c; try lia; pose proof (incr_count_nonneg key); 
    match goal with |- _ ≤ _ + incr_count _ ?p => specialize (H p) end; lia.
Qed.

(** ** What the reporter leaves alone *)

Lemma execute_sampling_frame (pipe : pipeline) (st : store) :
  Forall sampling_command pipe →
  lists (execute pipe st) = lists st ∧ sets (execute pipe st) = sets st.
Proof.
  revert st. induction pipe as [|c pipe IH]; intros st Hall; [done|].
  apply Forall_cons in Hall as [Hc Hall].
  change (execute (c :: pipe) st) with (execute pipe (apply_command c st)).
  destruct (IH (apply_command c st) Hall) as [-> ->]. by destruct c.
Qed.

Lemma perform_lists (self : StatsManager) (c : call) :
  lists (redis (perform self c)) = lists (redis self).
Proof.
  destruct c as [now tld | now tld code | tld]; cbn [perform].
  - apply execute_sampling_frame, record_success_pipeline_sampling.
  - apply execute_sampling_frame, record_error_pipeline_sampling.
  - unfold update_tlds. by case_decide.
Qed.

(** X5.  No reporter call writes a list: after any run of [record_success],
    [record_error] and [update_tlds] calls, every list of the store, the
    lists [statuslast50req:{domain}] among them, is as it was. *)
Theorem run_leaves_lists (calls : list call) (self : StatsManager) :
  lists (redis (run calls self)) = lists (redis self).
Proof.
  revert self. induction calls as [|c calls IH]; intros self; [done|].
  by rewrite run_cons, IH, perform_lists.
Qed.

Lemma perform_known_tlds (seen : gset string) (self : StatsManager) (c : call) :
  smembers (redis self) KNOWN_TLDS = seen ∪ known_tlds self →
  smembers (redis (perform self c)) KNOWN_TLDS = seen ∪ known_tlds (perform self c).
Proof.
  intros Hinv. destruct c as [now tld | now tld code | tld]; cbn [perform].
  - unfold smembers. cbn [record_success redis known_tlds].
    by rewrite (proj2 (execute_sampling_frame _ _
                         (record_success_pipeline_sampling now tld))).
  - unfold smembers. cbn [record_error redis known_tlds].
    by rewrite (proj2 (execute_sampling_frame _ _
                         (record_error_pipeline_sampling now tld code))).
  - unfold update_tlds. case_decide; [|done]. cbn [redis known_tlds].
    rewrite smembers_sadd, decide_True by done. rewrite Hinv. set_solver.
Qed.

(** X6.  The set [known_tlds] of the store only grows, and by exactly the
    mirror: after any run on a manager created over a store, the set holds
    what it held before together with every domain of the in-memory
    mirror. *)
Theorem known_tlds_mirrored (calls : list call) (r : store) :
  let self := run calls (new_StatsManager r) in
  smembers (redis self) KNOWN_TLDS = smembers r KNOWN_TLDS ∪ known_tlds self.
Proof.
  cbn zeta.
  assert (∀ self, smembers (redis self) KNOWN_TLDS =
                    smembers r KNOWN_TLDS ∪ known_tlds self →
                  smembers (redis (run calls self)) KNOWN_TLDS =
                    smembers r KNOWN_TLDS ∪ known_tlds (run calls self)) as Hrun.
  { induction calls as [|c calls IH]; intros self Hinv; [done|].
    rewrite run_cons. by apply IH, perform_known_tlds. }
  apply Hrun. cbn. set_solver.
Qed.

(** ** Windows of other domains and of the other outcome *)

Lemma zrange_apply_other (c : command) (st : store) (key : string) :
  zset_key c ≠ Some key → zrange (apply_command c st) key = zrange st key.
Proof.
  intros Hkey. destruct c; try done; cbn in Hkey; unfold zrange; cbn;
    by rewrite lookup_insert_ne by congruence.
Qed.

Lemma zrange_execute_other (pipe : pipeline) (st : store) (key : string) :
  Forall (λ c, zset_key c ≠ Some key) pipe →
  zrange (execute pipe st) key = zrange st key.
Proof.
  revert st. induction pipe as [|c pipe IH]; intros st Hall; [done|].
  apply Forall_cons in Hall as [Hc Hall].
  change (execute (c :: pipe) st) with (execute pipe (apply_command c st)).
  by rewrite IH, zrange_apply_other.
Qed.

(** A window key determines its prefix and its domain. *)
Lemma window_key_inj (k1 k2 : string) (i1 i2 : Z) (d1 d2 : string) :
  (k1, i1) ∈ WINDOW_PAIRS → (k2, i2) ∈ WINDOW_PAIRS →
  k1 +:+ d1 = k2 +:+ d2 → k1 = k2 ∧ d1 = d2.
Proof.
  intros H1 H2 Heq.
  assert (k1 = STATUS_60s ∨ k1 = STATUS_1HR ∨ k1 = STATUS_12HR) as Hk1
    by (unfold WINDOW_PAIRS in H1; set_solver).
  assert (k2 = STATUS_60s ∨ k2 = STATUS_1HR ∨ k2 = STATUS_12HR) as Hk2
    by (unfold WINDOW_PAIRS in H2; set_solver).
  destruct Hk1 as [-> | [-> | ->]], Hk2 as [-> | [-> | ->]];
    first [ split; [done|]; by apply (inj (String.app _)) in Heq
          | vm_compute in Heq; discriminate Heq ].
Qed.

Lemma window_pairs_60s : (STATUS_60s, ONE_MINUTE) ∈ WINDOW_PAIRS.
Proof. unfold WINDOW_PAIRS. set_solver. Qed.

Lemma window_pairs_1hr : (STATUS_1HR, ONE_HOUR) ∈ WINDOW_PAIRS.
Proof. unfold WINDOW_PAIRS. set_solver. Qed.

Lemma window_pairs_12hr : (STATUS_12HR, TWELVE_HOURS) ∈ WINDOW_PAIRS.
Proof. unfold WINDOW_PAIRS. set_solver. Qed.

Lemma window_samples_other_key (now : Q) (pipe : pipeline) (d : string)
    (success : Z) (key : string) :
  Forall (λ c, zset_key c ≠ Some key) pipe →
  (∀ stat_key interval, (stat_key, interval) ∈ WINDOW_PAIRS → key ≠ stat_key +:+ d) →
  Forall (λ c, zset_key c ≠ Some key) (_record_window_samples now pipe d success).
Proof.
  intros Hpipe Hkey. rewrite _record_window_samples_unfold.
  apply Forall_app. split; [done|].
  pose proof (Hkey _ _ window_pairs_60s).
  pose proof (Hkey _ _ window_pairs_1hr).
  pose proof (Hkey _ _ window_pairs_12hr).
  repeat (apply Forall_cons; split; [cbn; congruence|]). apply Forall_nil_2.
Qed.

Lemma record_pipelines_other_key (now : Q) (tld : Tld) (code : pyval) (key : string) :
  (∀ stat_key interval, (stat_key, interval) ∈ WINDOW_PAIRS →
     key ≠ stat_key +:+ domain_key tld) →
  Forall (λ c, zset_key c ≠ Some key) (record_success_pipeline now tld) ∧
  Forall (λ c, zset_key c ≠ Some key) (record_error_pipeline now tld code).
Proof.
  intros Hkey. split.
  - apply window_samples_other_key; [|done].
    repeat (apply Forall_cons; split; [done|]). apply Forall_nil_2.
  - unfold record_error_pipeline.
    destruct (truthy code);
      [destruct (py_eq code (PyInt 404) || py_eq code (PyStr "UnidentifiedImageError"))|];
      cbn iota beta; try (apply window_samples_other_key; [|done]);
      repeat (apply Forall_cons; split; [done|]); apply Forall_nil_2.
Qed.

(** X7.  Domains do not interfere: [record_success] and [record_error] for
    one domain leave the three windows of every other domain as they
    were. *)
Theorem other_domains_untouched (now : Q) (tld : Tld) (code : pyval)
    (self : StatsManager) (d' : string) (stat_key : string) (interval : Z) :
  d' ≠ domain_key tld →
  (stat_key, interval) ∈ WINDOW_PAIRS →
  zrange (redis (record_success now tld self)) (stat_key +:+ d') =
    zrange (redis self) (stat_key +:+ d') ∧
  zrange (redis (record_error now tld code self)) (stat_key +:+ d') =
    zrange (redis self) (stat_key +:+ d').
Proof.
  intros Hd Hpair.
  destruct (record_pipelines_other_key now tld code (stat_key +:+ d'))
    as [Hsuccess Herror].
  { intros k i Hk Heq. by destruct (window_key_inj _ _ _ _ _ _ Hpair Hk Heq). }
  split; by apply zrange_execute_other.
Qed.

Lemma other_domains_untouched_witness :
  "example.org" ≠ domain_key example_com ∧
  (STATUS_60s, ONE_MINUTE) ∈ WINDOW_PAIRS ∧
  zrange (redis (record_success 5 example_com (new_StatsManager empty_store)))
    (STATUS_60s +:+ "example.org") = zrange empty_store (STATUS_60s +:+ "example.org").
Proof.
  assert ("example.org" ≠ domain_key example_com) as Hd by (vm_compute; discriminate).
  assert ((STATUS_60s, ONE_MINUTE) ∈ WINDOW_PAIRS) as Hpair
    by (unfold WINDOW_PAIRS; apply list_elem_of_here).
  split_and!; [exact Hd | exact Hpair |].
  exact (proj1 (other_domains_untouched 5 example_com PyNone
                  (new_StatsManager empty_store) "example.org"
                  STATUS_60s ONE_MINUTE Hd Hpair)).
Defined.

Lemma zadd_keeps_other_member (st : store) (key key' : string) (score s : Q)
    (member m : Z) :
  m ≠ member →
  (s, m) ∈ zrange st key →
  (s, m) ∈ zrange (apply_command (ZADD key' score member) st) key.
Proof.
  intros Hm Hin. destruct (decide (key' = key)) as [->|Hne].
  - unfold zrange at 1. cbn. rewrite lookup_insert_eq. cbn. unfold zadd.
    apply elem_of_app. left. by apply list_elem_of_filter.
  - by rewrite zrange_apply_other by (cbn; congruence).
Qed.

Lemma trim_keeps_newer (st : store) (key key' : string) (b s : Q) (m : Z) :
  (key' = key → (b < s)%Q) →
  (s, m) ∈ zrange st key →
  (s, m) ∈ zrange (apply_command (ZREMRANGEBYSCORE key' NegInf (Score b)) st) key.
Proof.
  intros Hnew Hin. destruct (decide (key' = key)) as [->|Hne].
  - unfold zrange at 1. cbn. rewrite lookup_insert_eq. cbn.
    unfold zremrangebyscore. apply list_elem_of_filter. split; [|done].
    unfold in_score_range. cbn. apply Qle_bool_false. by apply Hnew.
  - by rewrite zrange_apply_other by (cbn; congruence).
Qed.

Lemma window_interval_unique (k : string) (i i' : Z) :
  (k, i) ∈ WINDOW_PAIRS → (k, i') ∈ WINDOW_PAIRS → i = i'.
Proof.
  intros H1 H2.
  assert ((k, i) = (STATUS_60s, ONE_MINUTE) ∨ (k, i) = (STATUS_1HR, ONE_HOUR)
          ∨ (k, i) = (STATUS_12HR, TWELVE_HOURS)) as Hi
    by (unfold WINDOW_PAIRS in H1; set_solver).
  assert ((k, i') = (STATUS_60s, ONE_MINUTE) ∨ (k, i') = (STATUS_1HR, ONE_HOUR)
          ∨ (k, i') = (STATUS_12HR, TWELVE_HOURS)) as Hi'
    by (unfold WINDOW_PAIRS in H2; set_solver).
  destruct Hi as [Hi | [Hi | Hi]], Hi' as [Hi' | [Hi' | Hi']];
    apply pair_equal_spec in Hi as [-> ->];
    apply pair_equal_spec in Hi' as [Hk ->];
    first [done | vm_compute in Hk; discriminate Hk].
Qed.

Lemma window_samples_keep_fresh (now : Q) (pipe : pipeline) (d : string)
    (success : Z) (st : store) (stat_key : string) (interval : Z) (s : Q) (m : Z) :
  (stat_key, interval) ∈ WINDOW_PAIRS →
  m ≠ success →
  (now - inject_Z interval < s)%Q →
  (s, m) ∈ zrange (execute pipe st) (stat_key +:+ d) →
  (s, m) ∈ zrange (execute (_record_window_samples now pipe d success) st)
             (stat_key +:+ d).
Proof.
  intros Hpair Hm Hfresh. rewrite _record_window_samples_unfold, execute_app.
  generalize (execute pipe st). intros st0 Hin.
  unfold execute. cbn [foldl].
  assert (∀ k i, (k, i) ∈ WINDOW_PAIRS → k +:+ d = stat_key +:+ d → i = interval)
    as Hsame.
  { intros k i Hk Heq. destruct (window_key_inj _ _ _ _ _ _ Hk Hpair Heq) as [-> _].
    by apply (window_interval_unique stat_key). }
  repeat first
    [ apply trim_keeps_newer;
      [ intros Heq;
        first [ rewrite (Hsame _ _ window_pairs_60s Heq)
              | rewrite (Hsame _ _ window_pairs_1hr Heq)
              | rewrite (Hsame _ _ window_pairs_12hr Heq) ];
        exact Hfresh |]
    | apply zadd_keeps_other_member; [exact Hm|] ].
  exact Hin.
Qed.

(** X8.  A recording call keeps the sample of the other outcome while it is
    fresh: after [record_success] a failure entry scored later than [now]
    minus the interval is still in the window, and after a [record_error]
    that affects the windows a success entry is. *)
Theorem fresh_sample_of_other_outcome_kept (now : Q) (tld : Tld) (code : pyval)
    (self : StatsManager) (stat_key : string) (interval : Z) (s : Q) :
  (stat_key, interval) ∈ WINDOW_PAIRS →
  (now - inject_Z interval < s)%Q →
  ((s, FAILED) ∈ zrange (redis self) (stat_key +:+ domain_key tld) →
   (s, FAILED) ∈
     zrange (redis (record_success now tld self)) (stat_key +:+ domain_key tld)) ∧
  (¬ benign code →
   (s, SUCCEEDED) ∈ zrange (redis self) (stat_key +:+ domain_key tld) →
   (s, SUCCEEDED) ∈
     zrange (redis (record_error now tld code self)) (stat_key +:+ domain_key tld)).
Proof.
  intros Hpair Hfresh. split.
  - intros Hin. cbn [record_success redis]. unfold record_success_pipeline.
    by apply (window_samples_keep_fresh _ _ _ _ _ _ interval).
  - intros Hnb Hin. cbn [record_error redis].
    destruct (record_error_pipeline_affecting now tld code Hnb) as (counts & -> & Hincr).
    apply (window_samples_keep_fresh _ _ _ _ _ _ interval); try done.
    rewrite zrange_execute_other; [done|].
    apply Forall_forall. intros c Hc. by destruct (Hincr c Hc) as [key ->].
Qed.

Lemma fresh_sample_of_other_outcome_kept_witness :
  (STATUS_60s, ONE_MINUTE) ∈ WINDOW_PAIRS ∧
  (70 - inject_Z ONE_MINUTE < 20)%Q ∧
  (20%Q, FAILED) ∈
    zrange (redis (record_success 70 example_com
                     (record_error 20 example_com (PyInt 500)
                        (new_StatsManager empty_store))))
      (STATUS_60s +:+ domain_key example_com).
Proof.
  assert ((STATUS_60s, ONE_MINUTE) ∈ WINDOW_PAIRS) as Hpair
    by (unfold WINDOW_PAIRS; apply list_elem_of_here).
  assert (70 - inject_Z ONE_MINUTE < 20)%Q as Hfresh by (vm_compute; reflexivity).
  split_and!; [exact Hpair | exact Hfresh |].
  apply (proj1 (fresh_sample_of_other_outcome_kept 70 example_com PyNone
                  (record_error 20 example_com (PyInt 500)
                     (new_StatsManager empty_store))
                  STATUS_60s ONE_MINUTE 20 Hpair Hfresh)).
  vm_compute. apply list_elem_of_here.
Defined.

(** ** The helper for the last fifty requests *)

Lemma ltrim_last_50 {A} (l : list A) :
  ltrim (-50) (-1) l = drop (length l - 50) l.
Proof.
  unfold ltrim. cbn [Z.ltb Z.compare].
  destruct l as [|x l]; [done|].
  set (len := Z.of_nat (length (x :: l))).
  assert (1 ≤ len) by (subst len; cbn [length]; lia).
  destruct (Z.ltb_spec (len + -1) (Z.max 0 (len + -50))); [lia|].
  destruct (Z.leb_spec len (Z.max 0 (len + -50))); [lia|].
  cbn [orb].
  replace (Z.to_nat (Z.max 0 (len + -50))) with (length (x :: l) - 50)%nat
    by (subst len; lia).
  apply take_ge. rewrite length_drop. subst len. lia.
Qed.

(** X9.  [_record_last_50_requests_sample] is a queue of fifty: the status
    becomes the last entry, the list keeps the last fifty entries of what it
    held with the status appended, and a list that was full loses exactly
    its oldest entry. *)
Theorem last_50_requests_fifo (d : string) (status : pyval) (st : store) :
  let before := lrange st (LAST_50_REQUESTS +:+ d) in
  let after :=
    lrange (execute (_record_last_50_requests_sample [] d status) st)
      (LAST_50_REQUESTS +:+ d) in
  after = drop (length before + 1 - 50) (before ++ [py_str status]) ∧
  last after = Some (py_str status) ∧
  length after = Nat.min 50 (length before + 1) ∧
  (length before = 50%nat → after = drop 1 before ++ [py_str status]).
Proof.
  intros before after.
  assert (after = drop (length before + 1 - 50) (before ++ [py_str status])) as Hafter.
  { subst after.
    change (execute (_record_last_50_requests_sample [] d status) st)
      with (apply_command (LTRIM (LAST_50_REQUESTS +:+ d) (-50) (-1))
              (apply_command (RPUSH (LAST_50_REQUESTS +:+ d) (py_str status)) st)).
    rewrite lrange_ltrim, lrange_rpush, ltrim_last_50.
    by rewrite length_app. }
  rewrite Hafter. split_and!.
  - done.
  - rewrite drop_app_le by lia. apply last_snoc.
  - rewrite length_drop, length_app. cbn [length]. lia.
  - intros Hfull. replace (length before + 1 - 50)%nat with 1%nat by lia.
    by rewrite drop_app_le by lia.
Qed.

(** ** More on the usage report *)

Lemma length_remove_dups_le {A} `{!EqDecision A} (l : list A) :
  (length (remove_dups l) ≤ length l)%nat.
Proof.
  induction l as [|x l IH]; [done|]. cbn. case_decide; cbn; lia.
Qed.

Lemma length_omap_le {A B} (f : A → option B) (l : list A) :
  (length (omap f l) ≤ length l)%nat.
Proof.
  induction l as [|x l IH]; [done|]. cbn. destruct (f x); cbn; lia.
Qed.

Lemma count_distinct_le_count {A B} `{!EqDecision B} (column : A → option B)
    (P : A → Prop) `{!∀ x, Decision (P x)} (rows : list A) :
  0 ≤ Reporting.count_distinct column P rows ≤ Reporting.count P rows.
Proof.
  unfold Reporting.count_distinct, Reporting.count.
  pose proof (length_remove_dups_le (omap column (filter P rows))).
  pose proof (length_omap_le column (filter P rows)). lia.
Qed.

(** X10.  A usage report never has more sessions than searches, so its
    average of searches per session is either 0 (no session) or at least
    1. *)
Theorem usage_report_average_bounds (session : Reporting.Session)
    (start_time end_time : Z) :
  ∃ report,
    Reporting.generate_usage_report session start_time end_time = inr report ∧
    0 ≤ Reporting.sessions report ≤ Reporting.searches report ∧
    (Reporting.sessions report = 0 ∧
       Reporting.avg_searches_per_session report = 0%Q
     ∨ 0 < Reporting.sessions report ∧
       (1 <= Reporting.avg_searches_per_session report)%Q).
Proof.
  eexists. split; [reflexivity|]. cbn.
  pose proof (count_distinct_le_count Reporting.session_uuid
                (λ e, Reporting.between start_time end_time (Reporting.se_timestamp e))
                (Reporting.search_events session)) as Hle.
  split; [exact Hle|].
  unfold Reporting.truediv. case_decide as Hzero; [by left | right].
  split; [lia|].
  apply Qle_shift_div_l.
  - apply (inject_Z_lt 0). lia.
  - rewrite Qmult_1_l. apply inject_Z_le. lia.
Qed.

Lemma count_empty {A} (P : A → Prop) `{!∀ x, Decision (P x)} (rows : list A) :
  (∀ x, ¬ P x) → Reporting.count P rows = 0.
Proof.
  intros Hnone. unfold Reporting.count. by rewrite filter_none by auto.
Qed.

Lemma count_distinct_empty {A B} `{!EqDecision B} (column : A → option B)
    (P : A → Prop) `{!∀ x, Decision (P x)} (rows : list A) :
  (∀ x, ¬ P x) → Reporting.count_distinct column P rows = 0.
Proof.
  intros Hnone. unfold Reporting.count_distinct. by rewrite filter_none by auto.
Qed.

(** X11.  For an interval that ends no later than it starts, every count of
    the usage report is 0 and so is the average. *)
Theorem usage_report_empty_interval (session : Reporting.Session)
    (start_time end_time : Z) :
  end_time ≤ start_time →
  ∃ report,
    Reporting.generate_usage_report session start_time end_time = inr report ∧
    Forall (λ n, n = 0) (usage_counts report) ∧
    Reporting.avg_searches_per_session report = 0%Q.
Proof.
  intros Hempty.
  assert (∀ t, ¬ Reporting.between start_time end_time t) as Hnone
    by (unfold Reporting.between; lia).
  eexists. split; [reflexivity|]. unfold usage_counts. cbn.
  unfold Reporting.detail_page_count.
  rewrite !count_empty, !count_distinct_empty by naive_solver.
  split; [|done].
  repeat (apply Forall_cons; split; [done|]). apply Forall_nil_2.
Qed.

Lemma count_mono {A} (P P' : A → Prop) `{!∀ x, Decision (P x)}
    `{!∀ x, Decision (P' x)} (rows : list A) :
  (∀ x, P x → P' x) → Reporting.count P rows ≤ Reporting.count P' rows.
Proof.
  intros Himp. unfold Reporting.count.
  apply inj_le. induction rows as [|x rows IH]; [done|].
  rewrite !filter_cons.
  destruct (decide (P x)) as [HP|HP].
  - rewrite decide_True by auto. cbn. lia.
  - case_decide; cbn; lia.
Qed.

Lemma count_distinct_mono {A B} `{!EqDecision B} (column : A → option B)
    (P P' : A → Prop) `{!∀ x, Decision (P x)} `{!∀ x, Decision (P' x)}
    (rows : list A) :
  (∀ x, P x → P' x) →
  Reporting.count_distinct column P rows ≤ Reporting.count_distinct column P' rows.
Proof.
  intros Himp. unfold Reporting.count_distinct.
  apply inj_le, submseteq_length, NoDup_submseteq; [apply NoDup_remove_dups|].
  intros y. rewrite !elem_of_remove_dups, !list_elem_of_omap.
  intros (x & Hx & Hy). exists x. split; [|done].
  apply list_elem_of_filter in Hx as [HP Hx]. apply list_elem_of_filter. auto.
Qed.

(** X12.  Widening the interval never lowers a count of the usage report:
    with an earlier start and a later end, each count is at least what it
    was. *)
Theorem usage_report_interval_monotone (session : Reporting.Session)
    (start_time end_time start_time' end_time' : Z) :
  start_time' ≤ start_time → end_time ≤ end_time' →
  ∃ report report',
    Reporting.generate_usage_report session start_time end_time = inr report ∧
    Reporting.generate_usage_report session start_time' end_time' = inr report' ∧
    Forall2 Z.le (usage_counts report) (usage_counts report').
Proof.
  intros Hstart Hend.
  assert (∀ t, Reporting.between start_time end_time t →
               Reporting.between start_time' end_time' t) as Hwider
    by (unfold Reporting.between; lia).
  eexists _, _. split_and!; [reflexivity..|]. unfold usage_counts. cbn.
  unfold Reporting.detail_page_count.
  repeat (apply Forall2_cons; split;
          [first [apply count_mono | apply count_distinct_mono]; naive_solver|]).
  apply Forall2_nil_2.
Qed.

Lemma usage_report_empty_interval_witness :
  ∃ report,
    Reporting.generate_usage_report example_session 10 10 = inr report ∧
    Forall (λ n, n = 0) (usage_counts report) ∧
    Reporting.avg_searches_per_session report = 0%Q.
Proof. apply (usage_report_empty_interval example_session 10 10). lia. Defined.

Lemma usage_report_interval_monotone_witness :
  ∃ report report',
    Reporting.generate_usage_report example_session 4 6 = inr report ∧
    Reporting.generate_usage_report example_session 0 10 = inr report' ∧
    Forall2 Z.le (usage_counts report) (usage_counts report').
Proof. apply (usage_report_interval_monotone example_session 4 6 0 10); lia. Defined.

(** ** The reports by source and by referrer *)

Lemma to_dict_snoc {K} `{Countable K} (rows : list (K * Z)) (row : K * Z) :
  UsageBreakdown.to_dict (rows ++ [row]) =
  <[row.1 := row.2]> (UsageBreakdown.to_dict rows).
Proof. unfold UsageBreakdown.to_dict. by rewrite foldl_app. Qed.

Lemma to_dict_keyed {K} `{Countable K} (size : K → Z) (keys : list K) (k : K) :
  UsageBreakdown.to_dict ((λ k, (k, size k)) <$> keys) !! k =
  if decide (k ∈ keys) then Some (size k) else None.
Proof.
  induction keys as [|k' keys IH] using rev_ind.
  - cbn. rewrite decide_False by apply not_elem_of_nil.
    unfold UsageBreakdown.to_dict. cbn. apply lookup_empty.
  - rewrite fmap_app. cbn [fmap list_fmap]. rewrite to_dict_snoc. cbn [fst snd].
    destruct (decide (k' = k)) as [->|Hne].
    + rewrite lookup_insert_eq, decide_True; [done | set_solver].
    + rewrite lookup_insert_ne, IH by done.
      destruct (decide (k ∈ keys)).
      * rewrite decide_True; [done | set_solver].
      * rewrite decide_False; [done | set_solver].
Qed.

Lemma to_dict_group_rows {K} `{Countable K} (size : K → Z) (column : list K) (k : K) :
  UsageBreakdown.to_dict (UsageBreakdown.group_rows size column) !! k =
  if decide (k ∈ column) then Some (size k) else None.
Proof.
  unfold UsageBreakdown.group_rows. rewrite to_dict_keyed.
  destruct (decide (k ∈ column)).
  - rewrite decide_True; [done | by apply elem_of_remove_dups].
  - rewrite decide_False; [done | by rewrite elem_of_remove_dups].
Qed.

Lemma occurrences_pos {K} `{!EqDecision K} (column : list K) (k : K) :
  k ∈ column → 0 < UsageBreakdown.occurrences column k.
Proof.
  intros Hin. unfold UsageBreakdown.occurrences.
  assert (k ∈ filter (λ k', k' = k) column) as Hk by (by apply list_elem_of_filter).
  destruct (filter (λ k', k' = k) column); [by apply elem_of_nil in Hk | cbn; lia].
Qed.

(** X13.  The report by source has a key exactly for the sources of the
    images clicked within the interval, and the value is the number of
    these clicks, which is positive: a source without clicks is absent, not
    present with 0. *)
Theorem source_usage_report_lookup (session : UsageBreakdown.Session)
    (start_time end_time : Z) (s : option string) :
  let joined := UsageBreakdown.clicked_sources session start_time end_time in
  UsageBreakdown.generate_source_usage_report session start_time end_time !! s =
    (if decide (s ∈ joined) then Some (UsageBreakdown.occurrences joined s) else None) ∧
  (s ∈ joined ↔
     ∃ img ev,
       img ∈ UsageBreakdown.images session ∧
       ev ∈ UsageBreakdown.result_clicked_events session ∧
       UsageBreakdown.result_uuid ev = UsageBreakdown.identifier img ∧
       start_time < UsageBreakdown.rc_timestamp ev < end_time ∧
       UsageBreakdown.source img = s) ∧
  (s ∈ joined → 0 < UsageBreakdown.occurrences joined s).
Proof.
  intros joined. split_and!.
  - apply to_dict_group_rows.
  - subst joined. unfold UsageBreakdown.clicked_sources.
    rewrite list_elem_of_bind. split.
    + intros (img & Hs & Himg). apply list_elem_of_bind in Hs as (ev & Hs & Hev).
      case_decide as Hmatch; [|by apply elem_of_nil in Hs].
      apply list_elem_of_singleton in Hs. exists img, ev. naive_solver.
    + intros (img & ev & Himg & Hev & Huuid & Htime & Hsource).
      exists img. split; [|done]. apply list_elem_of_bind. exists ev.
      split; [|done]. rewrite decide_True by naive_solver.
      by apply list_elem_of_singleton.
  - apply occurrences_pos.
Qed.

(** X14.  The report by referrer has a key exactly for the referrer domains
    of the events within the interval; a domain maps to the number of its
    events, which is positive, and the NULL domain, when it occurs, maps
    to 0. *)
Theorem referrer_usage_report_lookup (session : UsageBreakdown.Session)
    (start_time end_time : Z) (k : option string) :
  let column := UsageBreakdown.referrers session start_time end_time in
  UsageBreakdown.generate_referrer_usage_report session start_time end_time !! k =
    (if decide (k ∈ column)
     then Some (match k with
                | Some _ => UsageBreakdown.occurrences column k
                | None => 0
                end)
     else None) ∧
  (k ∈ column ↔
     ∃ ev, ev ∈ UsageBreakdown.attribution_referrer_events session ∧
           start_time < UsageBreakdown.ar_timestamp ev < end_time ∧
           UsageBreakdown.referer_domain ev = k) ∧
  (k ∈ column → is_Some k → 0 < UsageBreakdown.occurrences column k).
Proof.
  intros column. split_and!.
  - apply (to_dict_group_rows (UsageBreakdown.counted_referrers column)).
  - subst column. unfold UsageBreakdown.referrers.
    rewrite list_elem_of_fmap. setoid_rewrite list_elem_of_filter. naive_solver.
  - intros Hin _. by apply occurrences_pos.
Qed.

(** ** media_views.py *)

Lemma unpack_last_snoc {A} (init : list A) (x : A) :
  MediaViews.unpack_last (init ++ [x]) = Some (init, x).
Proof.
  induction init as [|y init IH]; [done|]. cbn. by rewrite IH.
Qed.

(** X15.  [fields_to_md] raises [ValueError] on the empty list; on a list
    that ends with [last] it quotes every name, joins all but the last with
    commas and appends [and `last`], so that for a single name the text
    starts with a space. *)
Theorem fields_to_md_shape (init : list string) (last : string) :
  MediaViews.fields_to_md [] = inl MediaViews.ValueError ∧
  MediaViews.fields_to_md (init ++ [last]) =
    inr (MediaViews.join ", " ((λ name, "`" +:+ name +:+ "`") <$> init)
         +:+ " and `" +:+ last +:+ "`") ∧
  MediaViews.fields_to_md [last] = inr (" and `" +:+ last +:+ "`").
Proof.
  split_and!; [done| |done].
  unfold MediaViews.fields_to_md. by rewrite unpack_last_snoc.
Qed.

Lemma join_cons_cons (sep a b : string) (l : list string) :
  MediaViews.join sep (a :: b :: l) = a +:+ sep +:+ MediaViews.join sep (b :: l).
Proof. reflexivity. Qed.

Lemma split_cons (sep c : Ascii.ascii) (s : string) :
  MediaViews.split sep (String c s) =
  if decide (c = sep)
  then (EmptyString, (MediaViews.split sep s).1 :: (MediaViews.split sep s).2)
  else (String c (MediaViews.split sep s).1, (MediaViews.split sep s).2).
Proof. cbn. by destruct (MediaViews.split sep s). Qed.

(** Joining the fields of a split gives the string back. *)
Lemma split_join (s : string) :
  MediaViews.join ","
    ((MediaViews.split MediaViews.comma s).1 :: (MediaViews.split MediaViews.comma s).2)
  = s.
Proof.
  induction s as [|c s IH]; [done|].
  rewrite split_cons. case_decide as Hc; cbn [fst snd].
  - rewrite join_cons_cons, IH. by subst c.
  - destruct (MediaViews.split MediaViews.comma s) as [first rest]. cbn [fst snd] in *.
    destruct rest as [|r rest].
    + cbn in IH |- *. by rewrite IH.
    + rewrite join_cons_cons in IH |- *. by rewrite <- IH.
Qed.

(** The first field of a split holds no separator. *)
Lemma split_first_clean (s : string) :
  MediaViews.split MediaViews.comma (MediaViews.split MediaViews.comma s).1 =
  ((MediaViews.split MediaViews.comma s).1, []).
Proof.
  induction s as [|c s IH]; [done|].
  rewrite split_cons. case_decide as Hc; cbn [fst snd]; [done|].
  rewrite split_cons, decide_False by done. by rewrite IH.
Qed.

(** X16.  With a non-empty [X-Forwarded-For] header, [_get_user_ip] returns
    the text before the first comma of the header: it holds no comma, and
    the header is it followed by the remaining fields.  Without the header,
    or with an empty one, the result is [REMOTE_ADDR]. *)
Theorem _get_user_ip_first_hop (META : gmap string string) :
  (∀ header, META !! "HTTP_X_FORWARDED_FOR" = Some header → header ≠ "" →
     ∃ ip rest,
       MediaViews._get_user_ip META = Some ip ∧
       header = MediaViews.join "," (ip :: rest) ∧
       MediaViews.split MediaViews.comma ip = (ip, [])) ∧
  (META !! "HTTP_X_FORWARDED_FOR" = None ∨ META !! "HTTP_X_FORWARDED_FOR" = Some "" →
   MediaViews._get_user_ip META = META !! "REMOTE_ADDR").
Proof.
  unfold MediaViews._get_user_ip. split.
  - intros header -> Hne. rewrite decide_True by done.
    exists (MediaViews.split MediaViews.comma header).1,
           (MediaViews.split MediaViews.comma header).2.
    split_and!; [done | by rewrite split_join | apply split_first_clean].
  - intros [-> | ->]; [done|]. by rewrite decide_False by auto.
Qed.

Lemma _get_user_ip_first_hop_witness :
  example_META !! "HTTP_X_FORWARDED_FOR" = Some "203.0.113.7, 10.0.0.2" ∧
  "203.0.113.7, 10.0.0.2" ≠ "" ∧
  ∃ ip rest,
    MediaViews._get_user_ip example_META = Some ip ∧
    "203.0.113.7, 10.0.0.2" = MediaViews.join "," (ip :: rest) ∧
    MediaViews.split MediaViews.comma ip = (ip, []).
Proof.
  assert (example_META !! "HTTP_X_FORWARDED_FOR" = Some "203.0.113.7, 10.0.0.2")
    as Hheader by (vm_compute; reflexivity).
  assert ("203.0.113.7, 10.0.0.2" ≠ "") as Hne by discriminate.
  split_and!; [exact Hheader | exact Hne |].
  exact (proj1 (_get_user_ip_first_hop example_META) _ Hheader Hne).
Defined.

Lemma foldl_source_stats (build_absolute_uri : string → string)
    (logos : gmap Z string) (source_counts : gmap string Z) (index_name : string)
    (response : list MediaViews.SourceStats)
    (source_data : list MediaViews.ContentProvider) :
  foldl (MediaViews.source_stats build_absolute_uri logos source_counts index_name)
    response source_data =
  response ++
  foldl (MediaViews.source_stats build_absolute_uri logos source_counts index_name)
    [] source_data.
Proof.
  revert response. induction source_data as [|p source_data IH]; intros response.
  - cbn. by rewrite app_nil_r.
  - cbn [foldl]. rewrite IH. rewrite (IH (MediaViews.source_stats _ _ _ _ [] p)).
    unfold MediaViews.source_stats. destruct (_ && _); [|done].
    by rewrite app_assoc.
Qed.

(** The entries of a response go with the reported providers, one to one
    and in the order of the table. *)
Lemma MediaStats_get_entries (build_absolute_uri : string → string)
    (providers : list MediaViews.ContentProvider) (logos : gmap Z string)
    (source_counts : gmap string Z) (index_name : string) :
  Forall2
    (λ e p,
       MediaViews.source_name e = MediaViews.provider_identifier p ∧
       MediaViews.count_key e = index_name +:+ "_count" ∧
       MediaViews.count e = source_counts !! MediaViews.provider_identifier p ∧
       MediaViews.display_name e = MediaViews.provider_name p ∧
       MediaViews.source_url e = MediaViews.domain_name p ∧
       MediaViews.logo_url e = build_absolute_uri <$> logos !! MediaViews.id p)
    (MediaViews.MediaStats_get build_absolute_uri providers logos source_counts index_name)
    (filter (reported source_counts index_name) providers).
Proof.
  unfold MediaViews.MediaStats_get.
  induction providers as [|p providers IH]; [by constructor|].
  rewrite !filter_cons.
  destruct (decide (MediaViews.media_type p = index_name)) as [Htype|Htype].
  - cbn [foldl]. rewrite foldl_source_stats.
    unfold MediaViews.source_stats at 1.
    destruct (MediaViews.filter_content p) eqn:Hfiltered; cbn [negb andb].
    + rewrite decide_False by (intros (_ & Hf & _); congruence). cbn [app]; exact IH.
    + case_bool_decide as Hcount.
      * rewrite decide_True by done. cbn [app]. constructor; [|exact IH].
        cbn. by split_and!.
      * rewrite decide_False by (by intros (_ & _ & Hc)). cbn [app]; exact IH.
  - rewrite decide_False by (by intros (Ht & _)). exact IH.
Qed.

(** X17.  The response of [MediaStats] lists exactly the providers of the
    requested media type that are not filtered and have a count, in the
    order of the table; every entry carries a count, the one that
    [get_sources] gave for its source, under the key [{index_name}_count]. *)
Theorem media_stats_reports_counted_sources (build_absolute_uri : string → string)
    (providers : list MediaViews.ContentProvider) (logos : gmap Z string)
    (source_counts : gmap string Z) (index_name : string) :
  let response :=
    MediaViews.MediaStats_get build_absolute_uri providers logos source_counts
      index_name in
  MediaViews.source_name <$> response =
    MediaViews.provider_identifier <$>
      filter (reported source_counts index_name) providers ∧
  Forall (λ e, ∃ n, MediaViews.count e = Some n ∧
                    source_counts !! MediaViews.source_name e = Some n ∧
                    MediaViews.count_key e = index_name +:+ "_count") response.
Proof.
  intros response. subst response.
  pose proof (MediaStats_get_entries build_absolute_uri providers logos
                source_counts index_name) as Hentries.
  assert (Forall (reported source_counts index_name)
            (filter (reported source_counts index_name) providers)) as Hreported.
  { apply Forall_forall. intros p Hp. by apply list_elem_of_filter in Hp as [? _]. }
  revert Hentries Hreported.
  generalize (MediaViews.MediaStats_get build_absolute_uri providers logos
                source_counts index_name)
             (filter (reported source_counts index_name) providers).
  intros response ps Hentries.
  induction Hentries as [|e p response ps He Hrest IH]; intros Hreported;
    [by split; constructor|].
  apply Forall_cons in Hreported as [Hp Hreported].
  destruct (IH Hreported) as [IHnames IHcounts].
  destruct He as (Hname & Hkey & Hcount & _).
  split.
  - cbn. by rewrite Hname, IHnames.
  - constructor; [|done].
    destruct Hp as (_ & _ & [n Hn]). exists n. rewrite Hname, Hcount. auto.
Qed.

(** X18.  [MediaStats] and [ProviderSerializer] agree: for every reported
    provider, the entry of the response carries the logo URL and the count
    that [get_logo_url] and [get_media_count] return under a context with
    the request and the counts.  Without a request in the context
    [get_logo_url] returns [None] even for a provider with a logo, and
    without the counts [get_media_count] raises [AttributeError]. *)
Theorem media_stats_agrees_with_serializer (build_absolute_uri : string → string)
    (providers : list MediaViews.ContentProvider) (logos : gmap Z string)
    (source_counts : gmap string Z) (index_name : string) :
  let context := full_context build_absolute_uri source_counts in
  let bare :=
    {| ProviderSerializers.request := None;
       ProviderSerializers.source_counts := None |} in
  Forall2
    (λ e p,
       MediaViews.source_name e = MediaViews.provider_identifier p ∧
       MediaViews.logo_url e = ProviderSerializers.get_logo_url context logos p ∧
       ProviderSerializers.get_media_count context p = inr (MediaViews.count e))
    (MediaViews.MediaStats_get build_absolute_uri providers logos source_counts index_name)
    (filter (reported source_counts index_name) providers) ∧
  Forall
    (λ p, ProviderSerializers.get_logo_url bare logos p = None ∧
          ProviderSerializers.get_media_count bare p =
            inl ProviderSerializers.AttributeError)
    providers.
Proof.
  intros context bare. split.
  - eapply Forall2_impl; [apply MediaStats_get_entries|].
    intros e p (Hname & _ & Hcount & _ & _ & Hlogo). split_and!; [done| |].
    + rewrite Hlogo. unfold ProviderSerializers.get_logo_url. cbn.
      by destruct (logos !! MediaViews.id p).
    + unfold ProviderSerializers.get_media_count. cbn. by rewrite Hcount.
  - apply Forall_forall. intros p _. split; [|done].
    unfold ProviderSerializers.get_logo_url. cbn.
    by destruct (logos !! MediaViews.id p).
Qed.

